(** * HttpAcceptParser: content negotiation over the HTTP [Accept] header

    A shallow embedding of [HttpAcceptParser.cpp] / [HttpAcceptParser.h].
    [std::string] is [string], [std::vector] is [list], the [float] field
    [qvalue] is a binary32 value of [SpecFloat.spec_float], [int] is [Z].
    In-place string mutation ([trim], [stringToLower]) is written as
    functions returning the new contents; loops over [std::getline] are
    recursions over the list of pieces [getline] hands out. *)

From Stdlib Require Import Bool List ZArith Lia String Ascii Permutation Sorted.
From Stdlib Require Import Floats.SpecFloat.
Import ListNotations.
Local Open Scope string_scope.

(** ** std::string helpers *)

Module Str.

(** [s.find(c)]: index of the first occurrence, [None] for [npos]. *)
Fixpoint find (c : ascii) (s : string) : option nat :=
  match s with
  | EmptyString => None
  | String a s' =>
      if Ascii.eqb a c then Some 0%nat else option_map S (find c s')
  end.

(** [std::string(s.begin() + i, s.begin() + j)]. *)
Definition range_of (s : string) (i j : nat) : string :=
  substring i (j - i) s.

(** [std::string(s.begin() + i, s.end())]. *)
Definition from (s : string) (i : nat) : string :=
  substring i (String.length s - i) s.

(** The characters of [charsToTrim] in [trim]: space, \t, \n, \r, \f, \v. *)
Definition is_trim_char (c : ascii) : bool :=
  let n := nat_of_ascii c in
  (n =? 32)%nat || (n =? 9)%nat || (n =? 10)%nat
  || (n =? 13)%nat || (n =? 12)%nat || (n =? 11)%nat.

(** [s.erase(s.find_last_not_of(t) + 1)]. *)
Fixpoint rtrim (s : string) : string :=
  match s with
  | EmptyString => EmptyString
  | String c s' =>
      match rtrim s' with
      | EmptyString => if is_trim_char c then EmptyString else String c EmptyString
      | r => String c r
      end
  end.

(** [s.erase(0, s.find_first_not_of(t))]. *)
Fixpoint ltrim (s : string) : string :=
  match s with
  | EmptyString => EmptyString
  | String c s' => if is_trim_char c then ltrim s' else s
  end.

Definition trim (s : string) : string := ltrim (rtrim s).

(** [std::tolower] in the "C" locale. *)
Definition tolower (c : ascii) : ascii :=
  let n := nat_of_ascii c in
  if ((65 <=? n) && (n <=? 90))%nat then ascii_of_nat (n + 32) else c.

Fixpoint stringToLower (s : string) : string :=
  match s with
  | EmptyString => EmptyString
  | String c s' => String (tolower c) (stringToLower s')
  end.

(** One call [std::getline(is, piece, delim)] on the unread characters of
    the stream: [None] when nothing at all can be extracted (the stream is
    at its end and the call fails), otherwise the piece and what is left
    unread.  The delimiter is extracted and dropped. *)
Fixpoint getline (delim : ascii) (s : string) : option (string * string) :=
  match s with
  | EmptyString => None
  | String c s' =>
      if Ascii.eqb c delim then Some (EmptyString, s')
      else match getline delim s' with
           | None => Some (String c EmptyString, EmptyString)
           | Some (piece, rest) => Some (String c piece, rest)
           end
  end.

(** The pieces produced by [for (std::string p; std::getline(is, p, delim);)]
    run to the end of the stream. *)
Fixpoint pieces (delim : ascii) (s : string) : list string :=
  match s with
  | EmptyString => []
  | String c s' =>
      if Ascii.eqb c delim then EmptyString :: pieces delim s'
      else match pieces delim s' with
           | [] => [String c EmptyString]
           | p :: ps => String c p :: ps
           end
  end.

Definition empty (s : string) : bool :=
  match s with EmptyString => true | _ => false end.

End Str.

(** ** binary32 values and the comparisons the code performs on them *)

Module F32.

Definition float := spec_float.

Definition prec : Z := 24.
Definition emax : Z := 128.

(** The literals of the source. *)
Definition zero : float := S754_zero false.                    (* 0 *)
Definition one : float := S754_finite false 8388608 (-23).     (* 1.0f *)
Definition minus_one : float := S754_finite true 8388608 (-23). (* -1.0f *)
Definition milli : float := S754_finite false 8589935 (-33).   (* 0.001f *)

Definition lt (a b : float) : bool := SFltb a b.       (* a < b *)
Definition gt (a b : float) : bool := SFltb b a.       (* a > b *)
Definition eq (a b : float) : bool := SFeqb a b.       (* a == b *)
Definition ne (a b : float) : bool := negb (SFeqb a b). (* a != b *)
Definition le (a b : float) : bool := SFleb a b.       (* a <= b *)

Definition is_nan (a : float) : bool :=
  match a with S754_nan => true | _ => false end.

End F32.

(** ** The data model *)

Record ParsedContentType : Type := mkParsedContentType {
  range : string;
  type : string;
  subtype : string;
  qvalue : F32.float;
  order : Z
}.

Definition set_range (ct : ParsedContentType) (r : string) :=
  mkParsedContentType r (type ct) (subtype ct) (qvalue ct) (order ct).
Definition set_type (ct : ParsedContentType) (t : string) :=
  mkParsedContentType (range ct) t (subtype ct) (qvalue ct) (order ct).
Definition set_subtype (ct : ParsedContentType) (s : string) :=
  mkParsedContentType (range ct) (type ct) s (qvalue ct) (order ct).
Definition set_qvalue (ct : ParsedContentType) (q : F32.float) :=
  mkParsedContentType (range ct) (type ct) (subtype ct) q (order ct).

Definition with_order (ct : ParsedContentType) (o : Z) : ParsedContentType :=
  mkParsedContentType (range ct) (type ct) (subtype ct) (qvalue ct) o.

(** The order of an entry once the token at position [n] is taken out of the
    header: entries before it keep theirs, later ones are one further on
    when the token is there. *)
Definition past (n : Z) (ct : ParsedContentType) : ParsedContentType :=
  if (order ct <? n)%Z then ct else with_order ct (order ct + 1).

(** ** std::stof

    [stringToFloat] wraps [std::stof], which is not part of the repository.
    The parser below takes the conversion as a parameter; [Stof.stof] is the
    model used to run it: the C library's [strtof] grammar (leading white
    space, sign, [inf]/[nan], hexadecimal and decimal literals, the longest
    valid prefix is converted and the rest ignored), rounding to the nearest
    binary32 value, [None] where [std::stof] throws ([std::invalid_argument]
    when nothing converts, [std::out_of_range] on overflow and on an inexact
    conversion of a tiny value, as glibc reports them on x86). *)

Module Stof.
Import F32.

Definition digit (c : ascii) : option Z :=
  let n := nat_of_ascii c in
  if ((48 <=? n) && (n <=? 57))%nat then Some (Z.of_nat (n - 48)) else None.

Definition xdigit (c : ascii) : option Z :=
  let n := nat_of_ascii (Str.tolower c) in
  if ((48 <=? n) && (n <=? 57))%nat then Some (Z.of_nat (n - 48))
  else if ((97 <=? n) && (n <=? 102))%nat then Some (Z.of_nat (n - 87))
  else None.

(** The longest run of digits: value accumulated onto [acc], how many
    digits were read, and the rest of the text. *)
Fixpoint read_digits (dig : ascii -> option Z) (base acc : Z) (s : string)
  : Z * Z * string :=
  match s with
  | EmptyString => (acc, 0%Z, s)
  | String c s' =>
      match dig c with
      | Some d =>
          let '(v, n, r) := read_digits dig base (acc * base + d)%Z s' in
          (v, (n + 1)%Z, r)
      | None => (acc, 0%Z, s)
      end
  end.

(** digits [. digits]: the value of all the digits, how many there are,
    how many follow the point, and the rest. *)
Definition read_mantissa (dig : ascii -> option Z) (base : Z) (s : string)
  : Z * Z * Z * string :=
  let '(v1, n1, r1) := read_digits dig base 0%Z s in
  match r1 with
  | String "."%char r =>
      let '(v2, n2, r2) := read_digits dig base v1 r in
      (v2, (n1 + n2)%Z, n2, r2)
  | _ => (v1, n1, 0%Z, r1)
  end.

(** The exponent part: the marker, an optional sign, at least one decimal
    digit; 0 when it is absent or incomplete. *)
Definition read_exponent (marker : ascii) (s : string) : Z :=
  match s with
  | String c r =>
      if Ascii.eqb (Str.tolower c) marker then
        let '(neg, r') :=
          match r with
          | String "-"%char t => (true, t)
          | String "+"%char t => (false, t)
          | _ => (false, r)
          end in
        let '(v, n, _) := read_digits digit 10%Z 0%Z r' in
        if (n =? 0)%Z then 0%Z else if neg then (- v)%Z else v
      else 0%Z
  | EmptyString => 0%Z
  end.

(** The value of precision [prec] nearest to [n / d] (ties to even), for
    [n, d > 0], in the format whose infinities have the exponent [emax']. *)
Definition round_ratio_in (emax' : Z) (sgn : bool) (n d : Z) : float :=
  let '(q, e, l) := SFdiv_core_binary prec emax' n 0%Z d 0%Z in
  binary_round_aux prec emax' sgn q e l.

(** The binary32 value nearest to [n / d]. *)
Definition round_ratio (sgn : bool) (n d : Z) : float :=
  round_ratio_in emax sgn n d.

(** [n / d] is tiny: rounded to 24 bits as if the exponent had no lower
    bound, it is still below the least normal binary32 value, 2^-126. *)
Definition is_tiny (n d : Z) : bool :=
  match round_ratio_in (2 ^ 30) false n d with
  | S754_zero _ => true
  | S754_finite _ _ e => (e <? 3 - emax - prec)%Z
  | _ => false
  end.

Definition exact (x : float) (n d : Z) : bool :=
  match x with
  | S754_finite _ m e =>
      if (0 <=? e)%Z then (Zpos m * 2 ^ e * d =? n)%Z
      else (Zpos m * d =? n * 2 ^ (- e))%Z
  | _ => false
  end.

(** The conversion of [n / d], with the range errors of [strtof]. *)
Definition finish (sgn : bool) (n d : Z) : option float :=
  if (n =? 0)%Z then Some (S754_zero sgn)
  else
    let x := round_ratio sgn n d in
    match x with
    | S754_infinity _ => None
    | _ => if is_tiny n d && negb (exact x n d) then None else Some x
    end.

Definition scaled (sgn : bool) (m base k : Z) : option float :=
  if (0 <=? k)%Z then finish sgn (m * base ^ k)%Z 1%Z
  else finish sgn m (base ^ (- k))%Z.

Definition decimal (sgn : bool) (s : string) : option float :=
  let '(m, n, f, rest) := read_mantissa digit 10%Z s in
  if (n =? 0)%Z then None
  else scaled sgn m 10%Z (read_exponent "e"%char rest - f)%Z.

(** [0x] followed by a hexadecimal mantissa; the outer [None] says the
    text is not such a literal. *)
Definition hexadecimal (sgn : bool) (s : string) : option (option float) :=
  match s with
  | String "0"%char (String x r) =>
      if Ascii.eqb (Str.tolower x) "x"%char then
        let '(m, n, f, rest) := read_mantissa xdigit 16%Z r in
        if (n =? 0)%Z then None
        else Some (scaled sgn m 2%Z (read_exponent "p"%char rest - 4 * f)%Z)
      else None
  | _ => None
  end.

Definition stof (s : string) : option float :=
  let s := Str.ltrim s in
  let '(sgn, body) :=
    match s with
    | String "-"%char r => (true, r)
    | String "+"%char r => (false, r)
    | _ => (false, s)
    end in
  let low := Str.stringToLower body in
  if prefix "inf" low then Some (S754_infinity sgn)
  else if prefix "nan" low then Some S754_nan
  else match hexadecimal sgn body with
       | Some r => r
       | None => decimal sgn body
       end.

End Stof.


(** ** HttpAcceptParser::compareContentTypes *)

Definition compareContentTypes (a b : ParsedContentType) : bool :=
  (* Sort by quality score *)
  if F32.ne (qvalue a) (qvalue b) then F32.gt (qvalue a) (qvalue b)
  (* Sort by type *)
  else if negb (type a =? type b) then
    if type a =? "*" then true
    else if type b =? "*" then false
    else (order a <? order b)%Z
  (* Sort by subtype *)
  else if negb (subtype a =? subtype b) then
    if subtype a =? "*" then true
    else if subtype b =? "*" then false
    else (order a <? order b)%Z
  (* Sort by order *)
  else (order a <? order b)%Z.

(** ** std::sort

    [std::sort] is modelled by the insertion sort that libstdc++ runs on a
    range of at most 16 elements: each element in turn goes to the front when
    it precedes the first one, and is otherwise moved left past every element
    it precedes, from the back, until one is met that it does not precede.
    The model is exact for ranges of at most 16 elements.  On longer ranges
    libstdc++ partitions first, and its arrangement can differ from the one
    below where the comparator is not a strict weak ordering on the elements
    (a cycle among wildcard entries, a NaN quality); where it is one, the
    orders being distinct, there is one sorted arrangement, whatever the
    algorithm. *)

Section Sort.
Context {A : Type}.
Variable comp : A -> A -> bool.

(** [__unguarded_linear_insert], on the sorted prefix: the new prefix and
    whether [val] has found its place in it. *)
Fixpoint linear_insert (val : A) (l : list A) : list A * bool :=
  match l with
  | [] => ([], false)
  | x :: l' =>
      let (r, placed) := linear_insert val l' in
      if placed then (x :: r, true)
      else if comp val x then (x :: r, false)
      else (x :: val :: r, true)
  end.

Definition insert (sorted : list A) (val : A) : list A :=
  match sorted with
  | [] => [val]
  | first :: _ =>
      if comp val first then val :: sorted
      else let (r, placed) := linear_insert val sorted in
           if placed then r else val :: r
  end.

Definition sort (l : list A) : list A := fold_left insert l [].

End Sort.

(** ** HttpAcceptParser::getPreferableContentType *)

(** The body of the loop over the accepted content types: the selected
    content type and [matchFound] before and after one accepted entry. *)
Definition matchAccepted (st : ParsedContentType * bool)
    (acceptedContentType : ParsedContentType) : ParsedContentType * bool :=
  let (selectedContentType, matchFound) := st in
  if (type acceptedContentType =? type selectedContentType)
     && ((subtype acceptedContentType =? subtype selectedContentType)
         || ((subtype acceptedContentType =? "*") && negb matchFound))
  then
    (* Match 'type/subtype' or 'type/*' *)
    (set_qvalue selectedContentType (qvalue acceptedContentType), true)
  else if (type acceptedContentType =? "*") && negb matchFound then
    (* Match '*/*' *)
    (set_qvalue selectedContentType (qvalue acceptedContentType), matchFound)
  else (selectedContentType, matchFound).

(** The loop over the available content types, from [order] on: the
    [selectedContentTypes] it pushes. *)
Fixpoint selectContentTypes (acceptedContentTypes : list ParsedContentType)
    (availableContentTypes : list string) (order : Z) : list ParsedContentType :=
  match availableContentTypes with
  | [] => []
  | contentTypeStr :: rest =>
      let contentTypeStr := Str.stringToLower (Str.trim contentTypeStr) in
      let selectedContentType :=
        mkParsedContentType contentTypeStr "" "" F32.zero order in
      match Str.find "/" contentTypeStr with
      | None =>
          (* Invalid content type format. *)
          selectContentTypes acceptedContentTypes rest order
      | Some indexSlash =>
          let selectedContentType :=
            set_type selectedContentType
              (Str.range_of contentTypeStr 0 indexSlash) in
          let selectedContentType :=
            set_subtype selectedContentType
              (Str.from contentTypeStr (indexSlash + 1)) in
          fst (fold_left matchAccepted acceptedContentTypes
                 (selectedContentType, false))
          :: selectContentTypes acceptedContentTypes rest (order + 1)
      end
  end.

Definition front (availableContentTypes : list string) : string :=
  match availableContentTypes with
  | first :: _ => first
  | [] => ""
  end.

Definition getPreferableContentType
    (acceptedContentTypes : list ParsedContentType)
    (availableContentTypes : list string) : string :=
  let selectedContentTypes :=
    sort compareContentTypes
      (selectContentTypes acceptedContentTypes availableContentTypes 0) in
  match selectedContentTypes with
  | best :: _ => range best
  | [] => front availableContentTypes
  end.

(** ** HttpAcceptParser::parse *)

Section Parse.

(** [stringToFloat]: [Some f] when [std::stof] converts the text to [f],
    [None] when it throws. *)
Variable stringToFloat : string -> option F32.float.

(** The first piece of a token: the media-range. *)
Definition parseMediaRange (contentType : ParsedContentType) (param : string)
  : option ParsedContentType :=
  let contentType := set_range contentType (Str.stringToLower param) in
  match Str.find "/" (range contentType) with
  | None => None (* Invalid content type format. *)
  | Some indexSlash =>
      let contentType :=
        set_type contentType (Str.range_of (range contentType) 0 indexSlash) in
      let contentType :=
        set_subtype contentType
          (Str.from (range contentType) (indexSlash + 1)) in
      if (type contentType =? "*") && negb (subtype contentType =? "*")
      then None (* Contains wildcard type with a subtype. *)
      else Some contentType
  end.

(** Any later piece: a parameter, of which only the quality is read. *)
Definition parseParameter (contentType : ParsedContentType) (param : string)
  : option ParsedContentType :=
  match Str.find "=" param with
  | None => None (* A '=' token is expected. *)
  | Some indexEqual =>
      let key := Str.trim (Str.range_of param 0 indexEqual) in
      let value := Str.trim (Str.from param (indexEqual + 1)) in
      if (key =? "q") || (key =? "Q") then
        match stringToFloat value with
        | None => None (* A valid float value is expected. *)
        | Some q =>
            (* RFC 7231 Section 5.3.1 *)
            if (F32.lt q F32.milli && F32.ne q F32.zero) || F32.gt q F32.one
            then Some (set_qvalue contentType F32.one)
            else if F32.eq q F32.zero
            then Some (set_qvalue contentType F32.minus_one)
            else Some (set_qvalue contentType q)
        end
      else Some contentType
  end.

(** The loop over the pieces of one token; [None] once
    [contentTypeIsAccepted] has become false. *)
Fixpoint parseParams (params : list string) (isFirstParameter : bool)
    (contentType : ParsedContentType) : option ParsedContentType :=
  match params with
  | [] => Some contentType
  | param :: rest =>
      let param := Str.trim param in
      if isFirstParameter then
        match parseMediaRange contentType param with
        | None => None
        | Some contentType => parseParams rest false contentType
        end
      else
        match parseParameter contentType param with
        | None => None
        | Some contentType => parseParams rest false contentType
        end
  end.

Definition parseToken (token : string) (order : Z) : option ParsedContentType :=
  let contentType := mkParsedContentType (Str.trim token) "" "" F32.one order in
  parseParams (Str.pieces ";" (range contentType)) true contentType.

(** The loop over the comma-separated tokens, from [order] on: the
    [acceptedContentTypes] it pushes. *)
Fixpoint parseTokens (tokens : list string) (order : Z)
  : list ParsedContentType :=
  match tokens with
  | [] => []
  | token :: rest =>
      match parseToken token order with
      | Some contentType => contentType :: parseTokens rest (order + 1)
      | None => parseTokens rest (order + 1)
      end
  end.

(** [acceptedContentTypes] before it is sorted. *)
Definition acceptedContentTypes (acceptValue : string) : list ParsedContentType :=
  parseTokens (Str.pieces "," acceptValue) 0.

Definition parse (acceptValue : string) (availableContentTypes : list string)
  : string :=
  if Str.empty acceptValue then front availableContentTypes
  else
    getPreferableContentType
      (sort compareContentTypes (acceptedContentTypes acceptValue))
      availableContentTypes.

End Parse.


(** ** The specification's side

    Definitions that follow the words of the specification, to be compared
    with the code above. *)

(** Does the text contain the character? *)
Definition contains (c : ascii) (s : string) : bool :=
  match Str.find c s with Some _ => true | None => false end.

(** *** Effective quality of a candidate (Negotiator) *)

(** The three kinds of accepted range met while scanning for the candidate
    [t/s], in their order of precedence. *)
Definition isExact (t s : string) (a : ParsedContentType) : bool :=
  (type a =? t) && (subtype a =? s).
Definition isSubtypeWildcard (t : string) (a : ParsedContentType) : bool :=
  (type a =? t) && (subtype a =? "*").
Definition isTypeWildcard (a : ParsedContentType) : bool :=
  type a =? "*".

(** One accepted range of the scan: the quality so far and whether an exact
    or wildcard-subtype match has been recorded. *)
Definition scanStep (t s : string) (st : F32.float * bool)
    (a : ParsedContentType) : F32.float * bool :=
  let (q, recorded) := st in
  if isExact t s a then (qvalue a, true)
  else if isSubtypeWildcard t a then
    if recorded then (q, recorded) else (qvalue a, true)
  else if isTypeWildcard a then
    if recorded then (q, recorded) else (qvalue a, false)
  else (q, recorded).

Definition scannedQuality (accepted : list ParsedContentType) (t s : string)
  : F32.float :=
  fst (fold_left (scanStep t s) accepted (F32.zero, false)).

(** The outcome of the scan in closed form: the last exact entry; failing
    that the first wildcard-subtype entry of the candidate's type; failing
    that the last entry of type "*"; failing that the initial 0. *)
Definition effectiveQuality (accepted : list ParsedContentType) (t s : string)
  : F32.float :=
  let exacts := filter (isExact t s) accepted in
  let subs := filter (isSubtypeWildcard t) accepted in
  let anys := filter isTypeWildcard accepted in
  last (map qvalue exacts)
    (hd (last (map qvalue anys) F32.zero) (map qvalue subs)).

(** *** Quality Normalizer *)

Definition normalize (raw : F32.float) : F32.float :=
  if F32.eq raw F32.zero then F32.minus_one
  else if (F32.lt raw F32.milli && F32.ne raw F32.zero) || F32.gt raw F32.one
  then F32.one
  else raw.

(** The text of the value when the (trimmed) parameter is a quality
    parameter: it has a '=' and its key is "q" or "Q". *)
Definition qualityText (param : string) : option string :=
  match Str.find "=" param with
  | None => None
  | Some i =>
      let key := Str.trim (Str.range_of param 0 i) in
      if (key =? "q") || (key =? "Q")
      then Some (Str.trim (Str.from param (i + 1)))
      else None
  end.

(** The parameters of a comma-token: its semicolon pieces after the first. *)
Definition parameters (token : string) : list string :=
  map Str.trim (tl (Str.pieces ";" (Str.trim token))).

Section SpecParse.
Variable stringToFloat : string -> option F32.float.

(** The raw q value a parameter carries: one when it is a quality
    parameter whose value parses, none otherwise. *)
Definition rawQuality (param : string) : list F32.float :=
  match qualityText param with
  | Some value =>
      match stringToFloat value with Some raw => [raw] | None => [] end
  | None => []
  end.

(** The parameter is a quality parameter whose value does not parse. *)
Definition unparseable (param : string) : bool :=
  match qualityText param with
  | Some value =>
      match stringToFloat value with Some _ => false | None => true end
  | None => false
  end.

(** The raw q values of a token, in the order they are written. *)
Definition rawQualities (token : string) : list F32.float :=
  flat_map rawQuality (parameters token).

(** Some q parameter of the token has a value that does not parse. *)
Definition hasUnparseableQuality (token : string) : bool :=
  existsb unparseable (parameters token).

End SpecParse.

(** *** Preference Comparator *)

(** [a] precedes [b]: by quality, then by type, then by subtype, then by
    order. *)
Definition precedes (a b : ParsedContentType) : bool :=
  if F32.gt (qvalue a) (qvalue b) then true
  else if F32.gt (qvalue b) (qvalue a) then false
  else if negb (type a =? type b) then
    if type a =? "*" then true
    else if type b =? "*" then false
    else (order a <? order b)%Z
  else if negb (subtype a =? subtype b) then
    if subtype a =? "*" then true
    else if subtype b =? "*" then false
    else (order a <? order b)%Z
  else (order a <? order b)%Z.

(** *** The range of quality values *)

(** [q] is -1.0 or lies in [0.001, 1.0]. *)
Definition normalized (q : F32.float) : Prop :=
  q = F32.minus_one \/ (F32.le F32.milli q = true /\ F32.le q F32.one = true).

(** *** Words for the properties of the helpers *)

(** Every character of the text is one of the characters [trim] strips. *)
Fixpoint blank (s : string) : bool :=
  match s with
  | EmptyString => true
  | String c s' => Str.is_trim_char c && blank s'
  end.

Definition first_char (s : string) : option ascii :=
  match s with
  | EmptyString => None
  | String c _ => Some c
  end.

Fixpoint last_char (s : string) : option ascii :=
  match s with
  | EmptyString => None
  | String c s' =>
      match last_char s' with
      | None => Some c
      | Some d => Some d
      end
  end.

(** The character, if there is one, is not one [trim] strips. *)
Definition solid (c : option ascii) : Prop :=
  match c with
  | Some c => Str.is_trim_char c = false
  | None => True
  end.

(** The delimiter, as a text, when the text ends with it. *)
Definition closing (delim : ascii) (s : string) : string :=
  match last_char s with
  | Some c => if Ascii.eqb c delim then String delim EmptyString else EmptyString
  | None => EmptyString
  end.

(** [b] is not of a higher quality than [a]. *)
Definition notAbove (a b : ParsedContentType) : Prop :=
  F32.gt (qvalue b) (qvalue a) = false.

Definition hasQuality (a : ParsedContentType) : Prop :=
  F32.is_nan (qvalue a) = false.

(** The text a candidate is made of. *)
Definition candidateText (entry : string) : string :=
  Str.stringToLower (Str.trim entry).

(** What the negotiator reads of an accepted entry. *)
Definition matched (a : ParsedContentType) : string * string * F32.float :=
  (type a, subtype a, qvalue a).

(** *** Media-range and candidate, as the specification words them *)

(** The text before the first occurrence of the character, and the text
    after it. *)
Fixpoint upto (c : ascii) (s : string) : string :=
  match s with
  | EmptyString => EmptyString
  | String a s' => if Ascii.eqb a c then EmptyString else String a (upto c s')
  end.

Fixpoint after (c : ascii) (s : string) : string :=
  match s with
  | EmptyString => EmptyString
  | String a s' => if Ascii.eqb a c then s' else after c s'
  end.

(** The first semicolon-segment of a comma-token: its media-range. *)
Definition mediaSegment (token : string) : string :=
  hd "" (Str.pieces ";" (Str.trim token)).

(** The entry a token stands for before its parameters are read: none when
    the media-range has no '/', or a wildcard type with another subtype;
    a token with no segment at all gives an entry with no text. *)
Definition acceptedRange (token : string) (order : Z)
  : option ParsedContentType :=
  let text := candidateText (mediaSegment token) in
  if Str.empty (Str.trim token) then
    Some (mkParsedContentType "" "" "" F32.one order)
  else if contains "/" text then
    if (upto "/" text =? "*") && negb (after "/" text =? "*") then None
    else Some (mkParsedContentType text (upto "/" text) (after "/" text)
                 F32.one order)
  else None.

(** Every parameter has a '=' and every q value parses. *)
Definition parametersParse (stringToFloat : string -> option F32.float)
    (token : string) : bool :=
  forallb (contains "=") (parameters token)
  && negb (hasUnparseableQuality stringToFloat token).

(** The accepted range of a token: its media-range, with the normalized
    value of its last q parameter, 1.0 when it has none. *)
Definition acceptedSpec (stringToFloat : string -> option F32.float)
    (token : string) (order : Z) : option ParsedContentType :=
  match acceptedRange token order with
  | None => None
  | Some ct =>
      if parametersParse stringToFloat token then
        Some (set_qvalue ct
                (last (map normalize (rawQualities stringToFloat token)) F32.one))
      else None
  end.

(** The candidates of the entries that have a '/', numbered from [order]
    on: the text of the entry, cut at its first '/', with the quality the
    scan of the accepted ranges gives. *)
Fixpoint candidatesSpec (accepted : list ParsedContentType)
    (entries : list string) (order : Z) : list ParsedContentType :=
  match entries with
  | [] => []
  | entry :: rest =>
      let text := candidateText entry in
      mkParsedContentType text (upto "/" text) (after "/" text)
        (scannedQuality accepted (upto "/" text) (after "/" text)) order
      :: candidatesSpec accepted rest (order + 1)
  end.

(** No wildcard in the type or the subtype. *)
Definition concrete (c : ParsedContentType) : Prop :=
  type c <> "*" /\ subtype c <> "*".

(** A place on the line for every binary32 value but NaN: the infinities at
    the ends, both zeros in the middle, the finite values by sign, exponent
    and mantissa. *)
Definition place (q : F32.float) : option (Z * Z * Z) :=
  match q with
  | S754_nan => None
  | S754_infinity true => Some (-2, 0, 0)%Z
  | S754_infinity false => Some (2, 0, 0)%Z
  | S754_zero _ => Some (0, 0, 0)%Z
  | S754_finite true m e => Some (-1, - e, - Zpos m)%Z
  | S754_finite false m e => Some (1, e, Zpos m)%Z
  end.

Definition before (p q : Z * Z * Z) : Prop :=
  let '(p1, p2, p3) := p in
  let '(q1, q2, q3) := q in
  (p1 < q1 \/ (p1 = q1 /\ (p2 < q2 \/ (p2 = q2 /\ p3 < q3))))%Z.

(** * Facts about the string helpers *)

Module StrFacts.
Import Str.

Lemma substring_all (s : string) : substring 0 (String.length s) s = s.
Proof. induction s as [|c s IH]; simpl; [reflexivity | now rewrite IH]. Qed.

Lemma from_S (c : ascii) (s : string) (i : nat) :
  from (String c s) (S i) = from s i.
Proof. reflexivity. Qed.

Lemma range_of_S (c : ascii) (s : string) (i : nat) :
  range_of (String c s) 0 (S i) = String c (range_of s 0 i).
Proof. unfold range_of; simpl. now rewrite Nat.sub_0_r. Qed.

(** [find] cuts the text at the first occurrence of the character. *)
Lemma find_split (c : ascii) (s : string) (i : nat) :
  find c s = Some i ->
  s = range_of s 0 i ++ String c (from s (i + 1))
  /\ find c (range_of s 0 i) = None.
Proof.
  rewrite Nat.add_1_r. revert i.
  induction s as [|a s IH]; simpl; intros i H; [discriminate|].
  destruct (Ascii.eqb a c) eqn:E.
  - injection H as <-. apply Ascii.eqb_eq in E; subst a.
    unfold range_of, from; simpl. rewrite Nat.sub_0_r, substring_all.
    split; [reflexivity|]. now destruct s.
  - destruct (find c s) as [j|] eqn:F; simpl in H; [|discriminate].
    injection H as <-. destruct (IH j eq_refl) as [Hs Hn].
    rewrite range_of_S, from_S. simpl. rewrite E, Hn. simpl.
    split; [now rewrite <- Hs | reflexivity].
Qed.

Lemma find_some_nonempty (c : ascii) (s : string) (i : nat) :
  find c s = Some i -> s <> "".
Proof. destruct s; simpl; [discriminate | intros _; discriminate]. Qed.

Lemma pieces_nil (d : ascii) (s : string) : pieces d s = [] -> s = "".
Proof.
  destruct s as [|c s]; simpl; [reflexivity|].
  destruct (Ascii.eqb c d); [discriminate|].
  destruct (pieces d s); discriminate.
Qed.

(** [pieces] is the list of the pieces successive [getline] calls return. *)
Lemma pieces_getline (d : ascii) (s : string) :
  pieces d s =
  match getline d s with
  | None => []
  | Some (piece, rest) => piece :: pieces d rest
  end.
Proof.
  induction s as [|c s IH]; simpl; [reflexivity|].
  destruct (Ascii.eqb c d); [reflexivity|].
  rewrite IH. destruct (getline d s) as [[p r]|]; reflexivity.
Qed.

Lemma tolower_slash (c : ascii) :
  Ascii.eqb (tolower c) "/" = Ascii.eqb c "/".
Proof.
  destruct c as [[] [] [] [] [] [] [] []]; reflexivity.
Qed.

Lemma find_stringToLower (s : string) :
  find "/" (stringToLower s) = find "/" s.
Proof.
  induction s as [|c s IH]; simpl; [reflexivity|].
  now rewrite tolower_slash, IH.
Qed.

Lemma trim_char_not_slash (c : ascii) :
  is_trim_char c = true -> Ascii.eqb c "/" = false.
Proof.
  destruct c as [[] [] [] [] [] [] [] []]; simpl; intros H;
    first [reflexivity | discriminate].
Qed.

End StrFacts.

Module ContainsFacts.
Import Str StrFacts.

Lemma contains_cons (c a : ascii) (s : string) :
  contains c (String a s) = Ascii.eqb a c || contains c s.
Proof.
  unfold contains; simpl. destruct (Ascii.eqb a c); [reflexivity|].
  now destruct (find c s).
Qed.

Lemma contains_ltrim (s : string) : contains "/" (ltrim s) = contains "/" s.
Proof.
  induction s as [|c s IH]; [reflexivity|]. simpl.
  destruct (is_trim_char c) eqn:T; [|reflexivity].
  now rewrite IH, contains_cons, (trim_char_not_slash c T).
Qed.

Lemma contains_rtrim (s : string) : contains "/" (rtrim s) = contains "/" s.
Proof.
  induction s as [|c s IH]; [reflexivity|]. simpl.
  rewrite (contains_cons "/" c s), <- IH.
  destruct (rtrim s) as [|a r].
  - destruct (is_trim_char c) eqn:T.
    + now rewrite (trim_char_not_slash c T).
    + now rewrite contains_cons.
  - now rewrite contains_cons.
Qed.

Lemma contains_stringToLower (s : string) :
  contains "/" (stringToLower s) = contains "/" s.
Proof. unfold contains. now rewrite find_stringToLower. Qed.

(** The text a candidate is made of has a '/' exactly when the available
    entry has one. *)
Lemma contains_candidate (s : string) :
  contains "/" (stringToLower (trim s)) = contains "/" s.
Proof.
  unfold trim. now rewrite contains_stringToLower, contains_ltrim, contains_rtrim.
Qed.

Lemma contains_nonempty (c : ascii) (s : string) :
  contains c s = true -> s <> "".
Proof. destruct s; [discriminate | intros _; discriminate]. Qed.

End ContainsFacts.

(** * Facts about the comparisons of binary32 values *)

Module F32Facts.
Import F32.

Lemma SFcompare_antisym (a b : float) :
  SFcompare b a = option_map CompOpp (SFcompare a b).
Proof.
  destruct a as [sa|sa| |sa ma ea], b as [sb|sb| |sb mb eb]; simpl;
    try reflexivity;
    try (destruct sa; reflexivity); try (destruct sb; reflexivity);
    try (destruct sa, sb; reflexivity).
  rewrite (Z.compare_antisym ea eb).
  change (Pos.compare_cont Eq mb ma) with (Pos.compare mb ma).
  change (Pos.compare_cont Eq ma mb) with (Pos.compare ma mb).
  rewrite (Pos.compare_antisym ma mb).
  destruct sa, sb; simpl; try reflexivity;
    destruct (ea ?= eb)%Z; simpl; try reflexivity;
    destruct (ma ?= mb)%positive; reflexivity.
Qed.

Lemma ne_sym (a b : float) : ne a b = ne b a.
Proof.
  unfold ne, SFeqb. rewrite (SFcompare_antisym a b).
  destruct (SFcompare a b) as [[]|]; reflexivity.
Qed.

Lemma gt_asym (a b : float) : gt a b = true -> gt b a = false.
Proof.
  unfold gt, SFltb. rewrite (SFcompare_antisym a b).
  destruct (SFcompare a b) as [[]|]; simpl; congruence.
Qed.

Lemma ne_irrefl_gt (a b : float) : ne a b = false -> gt a b = false.
Proof.
  unfold ne, gt, SFeqb, SFltb. rewrite (SFcompare_antisym a b).
  destruct (SFcompare a b) as [[]|]; simpl; congruence.
Qed.

(** Two values that are not NaN compare one way or the other, or are equal. *)
Lemma total (a b : float) :
  is_nan a = false -> is_nan b = false ->
  ne a b = true -> gt a b = true \/ gt b a = true.
Proof.
  unfold ne, gt, SFltb, SFeqb. rewrite (SFcompare_antisym a b).
  destruct a, b; simpl; try discriminate; intros _ _;
    match goal with
    | |- context [match ?c with _ => _ end] => destruct c eqn:?
    end; simpl; auto; try discriminate;
    match goal with
    | |- context [match ?c with _ => _ end] => destruct c eqn:?
    end; simpl; auto; discriminate.
Qed.

Lemma SFcompare_some (a b : float) :
  is_nan a = false -> is_nan b = false -> exists c, SFcompare a b = Some c.
Proof.
  destruct a, b; try discriminate; intros _ _; cbn [SFcompare]; eauto.
Qed.

(** What the range test of the parser leaves unchanged is NaN or lies in
    [0.001, 1.0]. *)
Lemma kept_in_range (q : float) :
  (lt q milli && ne q zero) || gt q one = false ->
  eq q zero = false ->
  is_nan q = true \/ (le milli q = true /\ le q one = true).
Proof.
  destruct (is_nan q) eqn:N; [now left | right].
  destruct (SFcompare_some q milli N eq_refl) as [c1 C1].
  destruct (SFcompare_some q one N eq_refl) as [c2 C2].
  destruct (SFcompare_some q zero N eq_refl) as [c0 C0].
  revert H H0. unfold lt, ne, gt, eq, le, SFltb, SFeqb, SFleb.
  rewrite (SFcompare_antisym q milli), (SFcompare_antisym q one), C0, C1, C2.
  destruct c0, c1, c2; cbn [option_map CompOpp negb andb orb];
    intros; try discriminate; auto.
Qed.

(** -1.0 compares below every value that is 0 or more. *)
Lemma minus_one_below (q : float) :
  le zero q = true ->
  ne minus_one q = true /\ gt minus_one q = false /\ gt q minus_one = true.
Proof.
  unfold le, ne, gt, SFleb, SFeqb, SFltb, zero, minus_one.
  destruct q as [s|s| |s m e]; cbn [SFcompare]; try discriminate.
  - auto.
  - destruct s; [discriminate | auto].
  - destruct s; [discriminate | auto].
Qed.

End F32Facts.

(** * Facts about the sort *)

Section SortFacts.
Context {A : Type}.
Variable comp : A -> A -> bool.

Lemma linear_insert_split (val : A) (l : list A) :
  (snd (linear_insert comp val l) = false /\ fst (linear_insert comp val l) = l)
  \/ (snd (linear_insert comp val l) = true /\
      exists x l1 l2, l = (x :: l1 ++ l2)%list
                      /\ fst (linear_insert comp val l) = (x :: l1 ++ val :: l2)%list).
Proof.
  induction l as [|x l IH]; simpl; [now left|].
  destruct (linear_insert comp val l) as [r placed]; simpl in IH.
  destruct IH as [[-> ->] | [-> (y & l1 & l2 & -> & ->)]].
  - destruct (comp val x); simpl; [now left|].
    right. split; [reflexivity|]. now exists x, [], l.
  - right. split; [reflexivity|]. now exists x, (y :: l1), l2.
Qed.

(** Inserting puts the new element somewhere into the list and moves
    nothing else. *)
Lemma insert_split (l : list A) (val : A) :
  exists l1 l2, l = (l1 ++ l2)%list /\ insert comp l val = (l1 ++ val :: l2)%list.
Proof.
  destruct l as [|first l]; [now exists [], []|].
  unfold insert. destruct (comp val first); [now exists [], (first :: l)|].
  destruct (linear_insert_split val (first :: l)) as [[Hp Hr] | [Hp (x & l1 & l2 & Hl & Hr)]];
    destruct (linear_insert comp val (first :: l)) as [r placed];
    simpl in Hp, Hr; subst placed r.
  - now exists [], (first :: l).
  - exists (x :: l1), l2. now rewrite Hl.
Qed.

Lemma insert_perm (l : list A) (val : A) :
  Permutation (insert comp l val) (val :: l).
Proof.
  destruct (insert_split l val) as (l1 & l2 & -> & ->).
  symmetry. apply Permutation_middle.
Qed.

Lemma fold_insert_perm (l acc : list A) :
  Permutation (fold_left (insert comp) l acc) (acc ++ l).
Proof.
  revert acc. induction l as [|x l IH]; intros acc; simpl.
  - now rewrite app_nil_r.
  - etransitivity; [apply IH|].
    etransitivity; [apply Permutation_app_tail, insert_perm|].
    simpl. apply Permutation_middle.
Qed.

Lemma sort_perm (l : list A) : Permutation (sort comp l) l.
Proof. apply (fold_insert_perm l []). Qed.

Lemma sort_in (l : list A) (x : A) : In x (sort comp l) <-> In x l.
Proof.
  split; apply Permutation_in; [apply sort_perm | symmetry; apply sort_perm].
Qed.

Lemma sort_Forall (P : A -> Prop) (l : list A) :
  Forall P l -> Forall P (sort comp l).
Proof.
  rewrite !Forall_forall. intros H x Hx. apply H. now apply sort_in.
Qed.

Lemma sort_nil_inv (l : list A) : sort comp l = [] -> l = [].
Proof.
  intros H. apply Permutation_nil. rewrite <- H. apply sort_perm.
Qed.

End SortFacts.

(** Sorting commutes with a relabelling of the elements that the comparator
    does not see. *)
Section SortMap.
Context {A B : Type}.
Variable compA : A -> A -> bool.
Variable compB : B -> B -> bool.
Variable g : A -> B.
Hypothesis comp_g : forall a b, compB (g a) (g b) = compA a b.

Lemma linear_insert_map (val : A) (l : list A) :
  linear_insert compB (g val) (map g l) =
  (map g (fst (linear_insert compA val l)), snd (linear_insert compA val l)).
Proof.
  induction l as [|x l IH]; simpl; [reflexivity|].
  rewrite IH. destruct (linear_insert compA val l) as [r placed]; simpl.
  destruct placed; [reflexivity|].
  rewrite comp_g. now destruct (compA val x).
Qed.

Lemma insert_map (l : list A) (val : A) :
  insert compB (map g l) (g val) = map g (insert compA l val).
Proof.
  destruct l as [|first l]; [reflexivity|].
  unfold insert. cbn [map]. rewrite comp_g.
  destruct (compA val first); [reflexivity|].
  change (g first :: map g l) with (map g (first :: l)).
  rewrite linear_insert_map.
  destruct (linear_insert compA val (first :: l)) as [r placed]; simpl.
  now destruct placed.
Qed.

Lemma sort_map (l : list A) : sort compB (map g l) = map g (sort compA l).
Proof.
  unfold sort. change (@nil B) with (map g []).
  generalize (@nil A) as acc.
  induction l as [|x l IH]; intros acc; simpl; [reflexivity|].
  now rewrite insert_map, IH.
Qed.

End SortMap.

(** * Facts about the negotiator *)

Lemma last_cons {A : Type} (x d : A) (l : list A) : last (x :: l) d = last l x.
Proof.
  revert x d. induction l as [|y l IH]; intros x d; [reflexivity|].
  change (last (x :: y :: l) d) with (last (y :: l) d). now rewrite !IH.
Qed.

Lemma set_qvalue_same (ct : ParsedContentType) : set_qvalue ct (qvalue ct) = ct.
Proof. now destruct ct. Qed.

(** One round of the loop of the code is one step of the scan. *)
Lemma matchAccepted_scanStep (sel a : ParsedContentType) (matchFound : bool) :
  matchAccepted (sel, matchFound) a =
  (set_qvalue sel
     (fst (scanStep (type sel) (subtype sel) (qvalue sel, matchFound) a)),
   snd (scanStep (type sel) (subtype sel) (qvalue sel, matchFound) a)).
Proof.
  unfold matchAccepted, scanStep, isExact, isSubtypeWildcard, isTypeWildcard.
  destruct (type a =? type sel), (subtype a =? subtype sel),
    (subtype a =? "*"), (type a =? "*"), matchFound;
    cbn [andb orb negb fst snd]; now rewrite ?set_qvalue_same.
Qed.

Lemma fold_matchAccepted (l : list ParsedContentType) (sel : ParsedContentType)
    (matchFound : bool) :
  fold_left matchAccepted l (sel, matchFound) =
  (set_qvalue sel
     (fst (fold_left (scanStep (type sel) (subtype sel)) l (qvalue sel, matchFound))),
   snd (fold_left (scanStep (type sel) (subtype sel)) l (qvalue sel, matchFound))).
Proof.
  revert sel matchFound. induction l as [|a l IH]; intros sel matchFound.
  - simpl. now rewrite set_qvalue_same.
  - cbn [fold_left]. rewrite matchAccepted_scanStep, IH.
    destruct (scanStep (type sel) (subtype sel) (qvalue sel, matchFound) a)
      as [q m]. reflexivity.
Qed.

(** The scan in closed form, from any state. *)
Lemma scan_closed_form (t s : string) (l : list ParsedContentType)
    (q0 : F32.float) (recorded : bool) :
  fst (fold_left (scanStep t s) l (q0, recorded)) =
  last (map qvalue (filter (isExact t s) l))
    (if recorded then q0
     else hd (last (map qvalue (filter isTypeWildcard l)) q0)
            (map qvalue (filter (isSubtypeWildcard t) l))).
Proof.
  revert q0 recorded. induction l as [|a l IH]; intros q0 recorded.
  - now destruct recorded.
  - cbn [fold_left filter]. unfold scanStep at 2.
    destruct (isExact t s a) eqn:E.
    + rewrite IH. cbn [map]. now rewrite last_cons.
    + destruct (isSubtypeWildcard t a) eqn:S.
      * destruct recorded; rewrite IH; [reflexivity|].
        now destruct (isTypeWildcard a).
      * destruct (isTypeWildcard a) eqn:W.
        -- destruct recorded; rewrite IH; [reflexivity|].
           cbn [map]. now rewrite last_cons.
        -- now rewrite IH.
Qed.

(** What the loop over the available content types pushes. *)
Lemma selectContentTypes_In (accepted : list ParsedContentType)
    (available : list string) (order : Z) (c : ParsedContentType) :
  In c (selectContentTypes accepted available order) ->
  exists entry i,
    In entry available
    /\ Str.find "/" (Str.stringToLower (Str.trim entry)) = Some i
    /\ range c = Str.stringToLower (Str.trim entry)
    /\ type c = Str.range_of (range c) 0 i
    /\ subtype c = Str.from (range c) (i + 1)
    /\ qvalue c = scannedQuality accepted (type c) (subtype c).
Proof.
  revert order. induction available as [|entry rest IH]; intros order H.
  - destruct H.
  - cbn [selectContentTypes] in H.
    destruct (Str.find "/" (Str.stringToLower (Str.trim entry))) as [i|] eqn:F.
    + destruct H as [<- | H].
      * exists entry, i. rewrite fold_matchAccepted. cbn.
        repeat split; auto.
      * destruct (IH _ H) as (e & j & ? & ?). exists e, j. split; [now right | assumption].
    + destruct (IH _ H) as (e & j & ? & ?). exists e, j. split; [now right | assumption].
Qed.

Lemma selectContentTypes_nil (accepted : list ParsedContentType)
    (available : list string) (order : Z) :
  selectContentTypes accepted available order = [] <->
  Forall (fun entry => contains "/" entry = false) available.
Proof.
  revert order. induction available as [|entry rest IH]; intros order.
  - split; [constructor | reflexivity].
  - cbn [selectContentTypes].
    pose proof (ContainsFacts.contains_candidate entry) as C. unfold contains in C at 1.
    destruct (Str.find "/" (Str.stringToLower (Str.trim entry))) as [i|].
    + split; [discriminate|]. intros H. inversion H; subst. congruence.
    + rewrite IH. split; intros H.
      * constructor; [congruence | assumption].
      * now inversion H.
Qed.

(** A candidate's text is never empty. *)
Lemma selectContentTypes_range (accepted : list ParsedContentType)
    (available : list string) (order : Z) (c : ParsedContentType) :
  In c (selectContentTypes accepted available order) ->
  exists entry, In entry available /\ contains "/" entry = true
                /\ range c = Str.stringToLower (Str.trim entry).
Proof.
  intros H. destruct (selectContentTypes_In _ _ _ _ H) as (e & i & He & F & R & _).
  exists e. repeat split; auto.
  rewrite <- ContainsFacts.contains_candidate. unfold contains. now rewrite F.
Qed.

(** * Facts about the parser *)

(** The range test of the code, written in the order of the code, is the
    normalizer of the specification. *)
Lemma range_test_normalize (q : F32.float) :
  (if (F32.lt q F32.milli && F32.ne q F32.zero) || F32.gt q F32.one
   then F32.one
   else if F32.eq q F32.zero then F32.minus_one else q) = normalize q.
Proof.
  unfold normalize. destruct (F32.eq q F32.zero) eqn:E; [|reflexivity].
  unfold F32.ne. fold (F32.eq q F32.zero). rewrite E.
  rewrite andb_false_r. cbn [negb orb].
  assert (G : F32.gt q F32.one = false); [|now rewrite G].
  unfold F32.eq, SFeqb, F32.zero in E. unfold F32.gt, SFltb, F32.one.
  destruct q as [s|s| |s m e]; cbn [SFcompare] in *;
    first [reflexivity | discriminate | destruct s; discriminate].
Qed.

Lemma last_In_or {A : Type} (l : list A) (d : A) :
  last l d = d \/ In (last l d) l.
Proof.
  revert d. induction l as [|x l IH]; intros d; [now left|].
  rewrite last_cons. destruct (IH x) as [-> | H]; right; [now left | now right].
Qed.

Section ParseFacts.
Variable stof : string -> option F32.float.

Lemma parseParameter_some (ct ct' : ParsedContentType) (param : string) :
  parseParameter stof ct param = Some ct' ->
  unparseable stof param = false
  /\ ct' = set_qvalue ct
             (last (map normalize (rawQuality stof param)) (qvalue ct)).
Proof.
  unfold parseParameter, unparseable, rawQuality, qualityText.
  destruct (Str.find "=" param) as [i|]; [|discriminate].
  destruct ((Str.trim (Str.range_of param 0 i) =? "q")
            || (Str.trim (Str.range_of param 0 i) =? "Q")).
  - destruct (stof (Str.trim (Str.from param (i + 1)))) as [q|];
      [|discriminate].
    cbn [map last]. rewrite <- range_test_normalize.
    intros H. split; [reflexivity|].
    destruct ((F32.lt q F32.milli && F32.ne q F32.zero) || F32.gt q F32.one);
      [|destruct (F32.eq q F32.zero)]; now injection H as <-.
  - intros [= <-]. split; [reflexivity|]. cbn. now rewrite set_qvalue_same.
Qed.

Lemma parseParameter_unparseable (ct : ParsedContentType) (param : string) :
  unparseable stof param = true -> parseParameter stof ct param = None.
Proof.
  destruct (parseParameter stof ct param) as [ct'|] eqn:P; [|reflexivity].
  apply parseParameter_some in P. destruct P as [U _]. congruence.
Qed.

Lemma parseParameter_with_order (ct : ParsedContentType) (param : string) (o : Z) :
  parseParameter stof (with_order ct o) param =
  option_map (fun c => with_order c o) (parseParameter stof ct param).
Proof.
  unfold parseParameter.
  destruct (Str.find "=" param) as [i|]; [|reflexivity].
  destruct ((Str.trim (Str.range_of param 0 i) =? "q")
            || (Str.trim (Str.range_of param 0 i) =? "Q")); [|reflexivity].
  destruct (stof (Str.trim (Str.from param (i + 1)))) as [q|];
    [|reflexivity].
  destruct ((F32.lt q F32.milli && F32.ne q F32.zero) || F32.gt q F32.one);
    [reflexivity|].
  now destruct (F32.eq q F32.zero).
Qed.

Lemma parseMediaRange_with_order (ct : ParsedContentType) (param : string) (o : Z) :
  parseMediaRange (with_order ct o) param =
  option_map (fun c => with_order c o) (parseMediaRange ct param).
Proof.
  destruct ct as [r t s q o'].
  unfold parseMediaRange, set_range, set_type, set_subtype, with_order.
  cbn [range type subtype qvalue order].
  destruct (Str.find "/" (Str.stringToLower param)) as [i|]; [|reflexivity].
  cbn [range type subtype qvalue order].
  match goal with |- context [if ?b then _ else _] => destruct b end;
    reflexivity.
Qed.

(** What the parse of a media-range establishes. *)
Lemma parseMediaRange_some (ct ct' : ParsedContentType) (param : string) :
  parseMediaRange ct param = Some ct' ->
  range ct' = Str.stringToLower param
  /\ range ct' = type ct' ++ "/" ++ subtype ct'
  /\ contains "/" (type ct') = false
  /\ ((type ct' =? "*") && negb (subtype ct' =? "*")) = false
  /\ qvalue ct' = qvalue ct /\ order ct' = order ct.
Proof.
  destruct ct as [r t s q o].
  unfold parseMediaRange, set_range, set_type, set_subtype.
  cbn [range type subtype qvalue order].
  destruct (Str.find "/" (Str.stringToLower param)) as [i|] eqn:F; [|discriminate].
  cbn [range type subtype qvalue order].
  match goal with |- context [if ?b then _ else _] => destruct b eqn:W end;
    [discriminate|].
  intros [= <-]. cbn [range type subtype qvalue order].
  destruct (StrFacts.find_split _ _ _ F) as [Hs Hn].
  repeat split; auto. unfold contains. now rewrite Hn.
Qed.

End ParseFacts.

Lemma last_app {A : Type} (l1 l2 : list A) (d : A) :
  last (l1 ++ l2) d = last l2 (last l1 d).
Proof.
  revert d. induction l1 as [|x l1 IH]; intros d; [reflexivity|].
  change ((x :: l1) ++ l2)%list with (x :: (l1 ++ l2))%list.
  now rewrite !last_cons, IH.
Qed.

Section ParseLoopFacts.
Variable stof : string -> option F32.float.

(** The parameters of an accepted token all parse, and the last quality
    among them decides. *)
Lemma parseParams_some (rest : list string) (ct ct' : ParsedContentType) :
  parseParams stof rest false ct = Some ct' ->
  existsb (unparseable stof) (map Str.trim rest) = false
  /\ ct' = set_qvalue ct
             (last (map normalize
                      (flat_map (rawQuality stof) (map Str.trim rest)))
                (qvalue ct)).
Proof.
  revert ct. induction rest as [|p rest IH]; intros ct H.
  - injection H as <-. split; [reflexivity|]. cbn. now rewrite set_qvalue_same.
  - cbn [parseParams] in H.
    destruct (parseParameter stof ct (Str.trim p)) as [c1|] eqn:P; [|discriminate].
    apply parseParameter_some in P. destruct P as [U ->].
    apply IH in H. destruct H as [E ->].
    cbn [map existsb flat_map]. rewrite U, E. split; [reflexivity|].
    rewrite map_app, last_app. reflexivity.
Qed.

Lemma parseParams_with_order (ps : list string) (b : bool)
    (ct : ParsedContentType) (o : Z) :
  parseParams stof ps b (with_order ct o) =
  option_map (fun c => with_order c o) (parseParams stof ps b ct).
Proof.
  revert b ct. induction ps as [|p ps IH]; intros b ct; [reflexivity|].
  cbn [parseParams]. destruct b.
  - rewrite parseMediaRange_with_order.
    destruct (parseMediaRange ct (Str.trim p)); [apply IH | reflexivity].
  - rewrite parseParameter_with_order.
    destruct (parseParameter stof ct (Str.trim p)); [apply IH | reflexivity].
Qed.

(** The order given to a token is only carried along. *)
Lemma parseToken_with_order (token : string) (o o' : Z) :
  parseToken stof token o' =
  option_map (fun c => with_order c o') (parseToken stof token o).
Proof.
  unfold parseToken. cbn [range]. apply (parseParams_with_order _ _
    (mkParsedContentType (Str.trim token) "" "" F32.one o) o').
Qed.

(** What an accepted token looks like. *)
Lemma parseToken_some (token : string) (o : Z) (ct : ParsedContentType) :
  parseToken stof token o = Some ct ->
  order ct = o
  /\ hasUnparseableQuality stof token = false
  /\ qvalue ct = last (map normalize (rawQualities stof token)) F32.one
  /\ ((Str.trim token = "" /\ range ct = "" /\ type ct = "" /\ subtype ct = "")
      \/ (range ct <> ""
          /\ range ct = type ct ++ "/" ++ subtype ct
          /\ contains "/" (type ct) = false
          /\ ((type ct =? "*") && negb (subtype ct =? "*")) = false)).
Proof.
  unfold parseToken, hasUnparseableQuality, rawQualities, parameters.
  cbn [range]. intros H.
  destruct (Str.pieces ";" (Str.trim token)) as [|p rest] eqn:P.
  - injection H as <-. apply StrFacts.pieces_nil in P.
    cbn. repeat split; auto.
  - cbn [parseParams] in H.
    destruct (parseMediaRange _ (Str.trim p)) as [c1|] eqn:M; [|discriminate].
    apply parseMediaRange_some in M.
    destruct M as (R & S & C & W & Q & O).
    apply parseParams_some in H. destruct H as [E ->].
    cbn [tl range type subtype qvalue order set_qvalue] in *.
    rewrite Q, O. repeat split; auto. right.
    repeat split; auto. rewrite S. now destruct (type c1).
Qed.

Lemma parseToken_unparseable (token : string) (o : Z) :
  hasUnparseableQuality stof token = true -> parseToken stof token o = None.
Proof.
  destruct (parseToken stof token o) as [ct|] eqn:P; [|reflexivity].
  apply parseToken_some in P. destruct P as (_ & U & _). congruence.
Qed.

Lemma parseTokens_Forall (P : ParsedContentType -> Prop) (tokens : list string)
    (o : Z) :
  (forall token o ct, In token tokens -> parseToken stof token o = Some ct -> P ct) ->
  Forall P (parseTokens stof tokens o).
Proof.
  revert o. induction tokens as [|t rest IH]; intros o H; [constructor|].
  cbn [parseTokens].
  assert (Hrest : Forall P (parseTokens stof rest (o + 1)))
    by (apply IH; intros t' o' ct Hin; apply H; now right).
  destruct (parseToken stof t o) as [ct|] eqn:E; [|assumption].
  constructor; [|assumption]. apply (H t o); [now left | assumption].
Qed.

Lemma parseTokens_app (l1 l2 : list string) (o : Z) :
  parseTokens stof (l1 ++ l2) o =
  (parseTokens stof l1 o ++ parseTokens stof l2 (o + Z.of_nat (List.length l1)))%list.
Proof.
  revert o. induction l1 as [|t l1 IH]; intros o.
  - cbn. now rewrite Z.add_0_r.
  - cbn [app parseTokens List.length]. rewrite IH.
    replace (o + 1 + Z.of_nat (List.length l1))%Z
      with (o + Z.of_nat (S (List.length l1)))%Z by lia.
    now destruct (parseToken stof t o).
Qed.

Lemma parseTokens_order (tokens : list string) (o : Z) :
  Forall (fun ct => (o <= order ct < o + Z.of_nat (List.length tokens))%Z)
    (parseTokens stof tokens o).
Proof.
  revert o. induction tokens as [|t rest IH]; intros o; [constructor|].
  cbn [parseTokens List.length].
  assert (Hrest : Forall (fun ct => (o <= order ct < o + Z.of_nat (S (List.length rest)))%Z)
                    (parseTokens stof rest (o + 1))).
  { eapply Forall_impl; [|apply IH]. cbn beta. intros ct. lia. }
  destruct (parseToken stof t o) as [ct|] eqn:E; [|assumption].
  constructor; [|assumption].
  apply parseToken_some in E. destruct E as [-> _]. lia.
Qed.

(** Starting the count one later adds one to every order. *)
Lemma parseTokens_shift (tokens : list string) (o : Z) :
  parseTokens stof tokens (o + 1) =
  map (fun c => with_order c (order c + 1)) (parseTokens stof tokens o).
Proof.
  revert o. induction tokens as [|t rest IH]; intros o; [reflexivity|].
  cbn [parseTokens]. rewrite (parseToken_with_order t o (o + 1)), IH.
  destruct (parseToken stof t o) as [ct|] eqn:E; [|reflexivity].
  apply parseToken_some in E. destruct E as [O _].
  cbn [option_map map]. now rewrite O.
Qed.

End ParseLoopFacts.

(** * The code against the specification's wording *)

Lemma find_upto_after (c : ascii) (s : string) (i : nat) :
  Str.find c s = Some i ->
  Str.range_of s 0 i = upto c s /\ Str.from s (i + 1) = after c s.
Proof.
  rewrite Nat.add_1_r. revert i.
  induction s as [|a s IH]; cbn [Str.find upto after]; intros i H; [discriminate|].
  destruct (Ascii.eqb a c).
  - injection H as <-. unfold Str.range_of, Str.from. cbn.
    now rewrite Nat.sub_0_r, StrFacts.substring_all.
  - destruct (Str.find c s) as [j|]; cbn in H; [|discriminate].
    injection H as <-. destruct (IH j eq_refl) as [U A].
    rewrite StrFacts.range_of_S, StrFacts.from_S. now rewrite U, A.
Qed.

(** The loop over the available content types builds the candidates of
    the entries that have a '/'. *)
Lemma selectContentTypes_spec (accepted : list ParsedContentType)
    (available : list string) (o : Z) :
  selectContentTypes accepted available o
  = candidatesSpec accepted (filter (contains "/") available) o.
Proof.
  revert o. induction available as [|entry rest IH]; intros o;
    [reflexivity|].
  cbn [selectContentTypes filter].
  rewrite <- (ContainsFacts.contains_candidate entry). unfold contains at 1.
  destruct (Str.find "/" (Str.stringToLower (Str.trim entry))) as [i|] eqn:F;
    [|apply IH].
  cbn [candidatesSpec]. rewrite IH, fold_matchAccepted.
  destruct (find_upto_after _ _ _ F) as [U A].
  unfold set_type, set_subtype, set_qvalue, candidateText, scannedQuality.
  cbn [range type subtype qvalue order fst]. now rewrite U, A.
Qed.

Section SpecFacts.
Variable stof : string -> option F32.float.

Lemma parseParameter_spec (ct : ParsedContentType) (param : string) :
  parseParameter stof ct param =
  if contains "=" param && negb (unparseable stof param) then
    Some (set_qvalue ct
            (last (map normalize (rawQuality stof param)) (qvalue ct)))
  else None.
Proof.
  unfold parseParameter, unparseable, rawQuality, qualityText, contains.
  destruct (Str.find "=" param) as [i|]; [|reflexivity].
  destruct ((Str.trim (Str.range_of param 0 i) =? "q")
            || (Str.trim (Str.range_of param 0 i) =? "Q")).
  - destruct (stof (Str.trim (Str.from param (i + 1)))) as [q|]; [|reflexivity].
    cbn [andb negb map last]. rewrite <- range_test_normalize.
    destruct ((F32.lt q F32.milli && F32.ne q F32.zero) || F32.gt q F32.one);
      [|destruct (F32.eq q F32.zero)]; reflexivity.
  - cbn. now rewrite set_qvalue_same.
Qed.

Lemma set_qvalue_twice (ct : ParsedContentType) (a b : F32.float) :
  set_qvalue (set_qvalue ct a) b = set_qvalue ct b.
Proof. reflexivity. Qed.

Lemma parseParams_spec (rest : list string) (ct : ParsedContentType) :
  parseParams stof rest false ct =
  if forallb (contains "=") (map Str.trim rest)
     && negb (existsb (unparseable stof) (map Str.trim rest))
  then Some (set_qvalue ct
               (last (map normalize
                        (flat_map (rawQuality stof) (map Str.trim rest)))
                  (qvalue ct)))
  else None.
Proof.
  revert ct. induction rest as [|p rest IH]; intros ct.
  - cbn. now rewrite set_qvalue_same.
  - cbn [parseParams map forallb existsb flat_map].
    rewrite parseParameter_spec.
    destruct (contains "=" (Str.trim p)); [|reflexivity].
    destruct (unparseable stof (Str.trim p));
      [cbn [andb negb orb]; now rewrite andb_false_r|].
    cbn [andb negb orb]. rewrite IH.
    destruct (forallb (contains "=") (map Str.trim rest)
              && negb (existsb (unparseable stof) (map Str.trim rest)));
      [|reflexivity].
    now rewrite set_qvalue_twice, map_app, last_app.
Qed.

(** The parse of a token is the accepted range the specification words. *)
Lemma parseToken_spec (token : string) (o : Z) :
  parseToken stof token o = acceptedSpec stof token o.
Proof.
  unfold parseToken, acceptedSpec, acceptedRange, parametersParse,
    hasUnparseableQuality, rawQualities, parameters, mediaSegment.
  cbn [range].
  destruct (Str.pieces ";" (Str.trim token)) as [|p rest] eqn:P.
  - apply StrFacts.pieces_nil in P. rewrite P. reflexivity.
  - assert (N : Str.empty (Str.trim token) = false).
    { destruct (Str.trim token); [discriminate P | reflexivity]. }
    rewrite N. cbn [hd tl parseParams].
    unfold parseMediaRange, candidateText, contains, set_range.
    cbn [range type subtype qvalue order].
    destruct (Str.find "/" (Str.stringToLower (Str.trim p))) as [i|] eqn:F;
      [|reflexivity].
    destruct (find_upto_after _ _ _ F) as [U A].
    unfold set_type, set_subtype. cbn [range type subtype qvalue order].
    rewrite U, A.
    destruct ((upto "/" (Str.stringToLower (Str.trim p)) =? "*")
              && negb (after "/" (Str.stringToLower (Str.trim p)) =? "*"));
      [reflexivity|].
    rewrite parseParams_spec. reflexivity.
Qed.

End SpecFacts.

Lemma parseTokens_origin (stof : string -> option F32.float)
    (tokens : list string) (o : Z) :
  Forall
    (fun ct =>
       exists token k,
         nth_error tokens k = Some token
         /\ order ct = (o + Z.of_nat k)%Z
         /\ parseToken stof token (order ct) = Some ct)
    (parseTokens stof tokens o).
Proof.
  revert o. induction tokens as [|t rest IH]; intros o; [constructor|].
  cbn [parseTokens].
  assert (R : Forall
                (fun ct =>
                   exists token k,
                     nth_error (t :: rest) k = Some token
                     /\ order ct = (o + Z.of_nat k)%Z
                     /\ parseToken stof token (order ct) = Some ct)
                (parseTokens stof rest (o + 1))).
  { eapply Forall_impl; [|apply IH]. cbn beta.
    intros ct (token & k & N & O & P). exists token, (S k).
    repeat split; auto. lia. }
  destruct (parseToken stof t o) as [ct|] eqn:E; [|exact R].
  constructor; [|exact R].
  pose proof (parseToken_some _ _ _ _ E) as [O _].
  exists t, 0%nat. rewrite O. repeat split; auto. cbn. lia.
Qed.

(** * The negotiation at work *)

Example negotiate_any :
  parse Stof.stof "*/*" ["application/json"; "text/html"] = "application/json".
Proof. vm_compute. reflexivity. Qed.

Example negotiate_by_quality :
  parse Stof.stof "text/html;q=0.9, application/json;q=0.8"
    ["application/json"; "text/html"] = "text/html".
Proof. vm_compute. reflexivity. Qed.

Example negotiate_subtype_wildcard :
  parse Stof.stof "text/*" ["text/plain"; "application/xml"] = "text/plain".
Proof. vm_compute. reflexivity. Qed.

Example negotiate_sole_rejected :
  parse Stof.stof "application/xml;q=0" ["application/xml"] = "application/xml".
Proof. vm_compute. reflexivity. Qed.

Example negotiate_no_slash_fallback :
  parse Stof.stof "text/html" [" JSON "; "xml"] = " JSON ".
Proof. vm_compute. reflexivity. Qed.

Example stof_literals :
  Stof.stof "0.001" = Some F32.milli /\ Stof.stof "1" = Some F32.one
  /\ Stof.stof "-1.0" = Some F32.minus_one /\ Stof.stof "0" = Some F32.zero
  /\ Stof.stof "q" = None /\ Stof.stof "1e39" = None.
Proof. repeat split; vm_compute; reflexivity. Qed.

(** * The claims *)

(** ** C3: the empty header *)

(** C3. For every available list, [parse] on the empty header returns the
    first available content type exactly as it was given (it is not trimmed
    and not lower-cased), and the empty string when the list is empty. *)
Theorem parse_empty_header (stof : string -> option F32.float)
    (available : list string) :
  parse stof "" available =
  match available with
  | first :: _ => first
  | [] => ""
  end.
Proof. reflexivity. Qed.

(** ** C1: the effective quality of a candidate *)

Lemma selectContentTypes_ranges (accepted : list ParsedContentType)
    (available : list string) (order : Z) :
  map range (selectContentTypes accepted available order) =
  map (fun entry => Str.stringToLower (Str.trim entry))
    (filter (contains "/") available).
Proof.
  revert order. induction available as [|entry rest IH]; intros order;
    [reflexivity|].
  cbn [selectContentTypes filter].
  rewrite <- (ContainsFacts.contains_candidate entry). unfold contains at 1.
  destruct (Str.find "/" (Str.stringToLower (Str.trim entry))) as [i|].
  - cbn [map]. rewrite IH, fold_matchAccepted. reflexivity.
  - apply IH.
Qed.

(** C1. The loop over the available content types builds exactly these
    candidates: one for every available entry that contains '/', in their
    order, with the trimmed, lower-cased text of the entry, its type and
    subtype cut at the first '/', and as its quality the outcome of the scan
    over all the accepted ranges in the order they are handed over: an exact
    range overwrites unconditionally, a wildcard-subtype range of the
    candidate's type assigns only while no exact or wildcard-subtype match is
    recorded and is then recorded itself, a range of type "*" assigns while no
    such match is recorded and records nothing.  In closed form the outcome
    is: the last exact range, else the first wildcard-subtype range, else the
    last range of type "*", else 0. *)
Theorem candidate_quality (accepted : list ParsedContentType)
    (available : list string) (o : Z) :
  selectContentTypes accepted available o
  = candidatesSpec accepted (filter (contains "/") available) o
  /\ forall t s, scannedQuality accepted t s = effectiveQuality accepted t s.
Proof.
  split; [apply selectContentTypes_spec|].
  intros t s. unfold scannedQuality, effectiveQuality. apply scan_closed_form.
Qed.

(** ** C4: the quality of an accepted range *)

(** C4. A token is accepted exactly when its media-range is and all its
    parameters parse, whatever the magnitudes of its q values, and the
    quality it is stored with is a function of the raw q values its
    parameters parse to: [normalize] of the last one (0 gives -1.0; below
    0.001 but not 0, or above 1.0, gives 1.0; anything else is kept), and 1.0
    when the token carries no q parameter. *)
Theorem accepted_quality (stof : string -> option F32.float) (token : string)
    (o : Z) :
  parseToken stof token o = acceptedSpec stof token o.
Proof. apply parseToken_spec. Qed.

Lemma accepted_quality_witness :
  map (fun token => option_map qvalue (parseToken Stof.stof token 0))
    ["a/b;q=0"; "a/b;q=0.0005"; "a/b;q=7"; "a/b;q=-3"; "a/b; Q = 0.25";
     "a/b"; "a/b;level=1"; "a/b;q=0.9;q=0"; "a/b;q=zero"]
  = [Some F32.minus_one; Some F32.one; Some F32.one; Some F32.one;
     Some (S754_finite false 8388608 (-25));
     Some F32.one; Some F32.one; Some F32.minus_one; None].
Proof.
  cbn [map]. rewrite !(accepted_quality Stof.stof). vm_compute. reflexivity.
Defined.

(** ** C8: type and subtype of an accepted range *)

(** C8, as stated, fails: the token "text/" is accepted with an empty
    subtype. *)
Lemma accepted_with_empty_subtype :
  ~ Forall (fun ct => type ct <> "" /\ subtype ct <> "")
      (acceptedContentTypes Stof.stof "text/").
Proof.
  intros H. apply Forall_inv in H. revert H. vm_compute.
  intros [_ S]. now apply S.
Qed.

Lemma upto_after_split (c : ascii) (s : string) :
  contains c s = true ->
  s = upto c s ++ String c (after c s) /\ contains c (upto c s) = false.
Proof.
  induction s as [|a s IH]; [discriminate|].
  rewrite ContainsFacts.contains_cons. cbn [upto after].
  destruct (Ascii.eqb a c) eqn:E.
  - intros _. apply Ascii.eqb_eq in E. subst a. now split.
  - cbn [orb]. intros H. destruct (IH H) as [S N].
    rewrite ContainsFacts.contains_cons, E. cbn [append orb].
    split; [now rewrite <- S | exact N].
Qed.

(** C8, amended. A token that is not blank and whose media-range segment
    has no '/' is discarded.  Every accepted range whose text is not empty
    comes from the token at the position its order gives: its text is the
    trimmed, lower-cased media-range segment of that token, cut at its first
    '/' into the type, which has no '/' in it, and the subtype, and a
    wildcard type comes with a wildcard subtype only.  Nothing is said of the
    emptiness of the two parts. *)
Theorem accepted_media_range (stof : string -> option F32.float) :
  (forall token o,
      Str.trim token <> "" -> contains "/" (mediaSegment token) = false ->
      parseToken stof token o = None)
  /\ (forall header ct,
        In ct (acceptedContentTypes stof header) ->
        range ct <> "" ->
        (exists token,
            nth_error (Str.pieces "," header) (Z.to_nat (order ct)) = Some token
            /\ range ct = candidateText (mediaSegment token))
        /\ range ct = type ct ++ "/" ++ subtype ct
        /\ type ct = upto "/" (range ct)
        /\ subtype ct = after "/" (range ct)
        /\ contains "/" (type ct) = false
        /\ (type ct = "*" -> subtype ct = "*")).
Proof.
  split.
  - intros token o N C. rewrite parseToken_spec.
    unfold acceptedSpec, acceptedRange.
    destruct (Str.trim token); [congruence|]. cbn [Str.empty].
    unfold candidateText. now rewrite ContainsFacts.contains_candidate, C.
  - intros header ct Hin Hr.
    pose proof (parseTokens_origin stof (Str.pieces "," header) 0) as F.
    rewrite Forall_forall in F.
    destruct (F ct Hin) as (token & k & Nk & O & P).
    rewrite parseToken_spec in P. unfold acceptedSpec, acceptedRange in P.
    destruct (Str.empty (Str.trim token)).
    { destruct (parametersParse stof token); [|discriminate].
      injection P as E. exfalso. apply Hr. now rewrite <- E. }
    destruct (contains "/" (candidateText (mediaSegment token))) eqn:C;
      [|discriminate].
    destruct ((upto "/" (candidateText (mediaSegment token)) =? "*")
              && negb (after "/" (candidateText (mediaSegment token)) =? "*"))
      eqn:W; [discriminate|].
    destruct (parametersParse stof token); [|discriminate].
    injection P as E.
    assert (R : range ct = candidateText (mediaSegment token))
      by now rewrite <- E.
    assert (T : type ct = upto "/" (candidateText (mediaSegment token)))
      by now rewrite <- E.
    assert (S : subtype ct = after "/" (candidateText (mediaSegment token)))
      by now rewrite <- E.
    destruct (upto_after_split _ _ C) as [Sp N].
    rewrite T, S, R. repeat split; auto.
    + exists token. split; [|reflexivity].
      rewrite O. replace (Z.to_nat (0 + Z.of_nat k)) with k by lia. exact Nk.
    + intros T'. rewrite T' in W. cbn in W.
      apply negb_false_iff in W. now apply String.eqb_eq in W.
Qed.

Lemma accepted_media_range_witness :
  parseToken Stof.stof " html ; q=1" 0 = None
  /\ let ct := mkParsedContentType "text/html" "text" "html" F32.one 1 in
     (exists token,
         nth_error (Str.pieces "," "a/b, Text/HTML ;level=1") (Z.to_nat (order ct))
         = Some token
         /\ range ct = candidateText (mediaSegment token))
     /\ range ct = type ct ++ "/" ++ subtype ct
     /\ type ct = upto "/" (range ct)
     /\ subtype ct = after "/" (range ct)
     /\ contains "/" (type ct) = false
     /\ (type ct = "*" -> subtype ct = "*").
Proof.
  split.
  - apply (proj1 (accepted_media_range Stof.stof)); [discriminate | reflexivity].
  - apply (proj2 (accepted_media_range Stof.stof) "a/b, Text/HTML ;level=1").
    + vm_compute. right. now left.
    + discriminate.
Defined.

(** ** C9: the range of the quality values *)

Lemma one_normalized : normalized F32.one.
Proof. right. split; reflexivity. Qed.

Lemma normalize_range (raw : F32.float) :
  F32.is_nan (normalize raw) = true \/ normalized (normalize raw).
Proof.
  unfold normalize.
  destruct (F32.eq raw F32.zero) eqn:E; [right; now left|].
  destruct ((F32.lt raw F32.milli && F32.ne raw F32.zero) || F32.gt raw F32.one)
    eqn:T; [right; apply one_normalized|].
  destruct (F32Facts.kept_in_range raw T E) as [N | R]; [now left | right; now right].
Qed.

Lemma scannedQuality_source (accepted : list ParsedContentType) (t s : string) :
  scannedQuality accepted t s = F32.zero
  \/ exists a, In a accepted /\ scannedQuality accepted t s = qvalue a.
Proof.
  unfold scannedQuality. rewrite scan_closed_form.
  assert (M : forall (f : ParsedContentType -> bool) q,
             In q (map qvalue (filter f accepted)) ->
             exists a, In a accepted /\ q = qvalue a).
  { intros f q H. apply in_map_iff in H. destruct H as (a & <- & H).
    apply filter_In in H. exists a. tauto. }
  destruct (last_In_or (map qvalue (filter (isExact t s) accepted))
              (hd (last (map qvalue (filter isTypeWildcard accepted)) F32.zero)
                 (map qvalue (filter (isSubtypeWildcard t) accepted))))
    as [-> | H]; [|right; now apply M in H].
  destruct (map qvalue (filter (isSubtypeWildcard t) accepted)) as [|q qs] eqn:S.
  - cbn [hd].
    destruct (last_In_or (map qvalue (filter isTypeWildcard accepted)) F32.zero)
      as [-> | H]; [now left | right; now apply M in H].
  - right. apply (M (isSubtypeWildcard t)). rewrite S. now left.
Qed.

(** C9, as stated, fails: with the header "a/b" the candidate "c/d" matches
    nothing and keeps the quality 0. *)
Lemma unmatched_candidate_keeps_zero :
  ~ Forall (fun c => normalized (qvalue c))
      (selectContentTypes
         (sort compareContentTypes (acceptedContentTypes Stof.stof "a/b"))
         ["c/d"] 0).
Proof.
  intros H. apply Forall_inv in H. revert H. vm_compute.
  intros [E | [L _]]; discriminate.
Qed.

(** C9, amended. The quality of every accepted range, unless it is NaN, is
    -1.0 or lies in [0.001, 1.0]; the quality of every candidate, unless it
    is NaN, is 0, -1.0 or lies in [0.001, 1.0]. *)
Theorem quality_range (stof : string -> option F32.float) (header : string)
    (available : list string) :
  let accepted := sort compareContentTypes (acceptedContentTypes stof header) in
  Forall (fun ct => F32.is_nan (qvalue ct) = true \/ normalized (qvalue ct))
    accepted
  /\ Forall (fun c => F32.is_nan (qvalue c) = true \/ qvalue c = F32.zero
                      \/ normalized (qvalue c))
       (selectContentTypes accepted available 0).
Proof.
  cbv zeta.
  assert (A : Forall (fun ct => F32.is_nan (qvalue ct) = true \/ normalized (qvalue ct))
                (sort compareContentTypes (acceptedContentTypes stof header))).
  { apply sort_Forall. apply parseTokens_Forall. intros token o ct _ P.
    apply parseToken_some in P. destruct P as (_ & _ & -> & _).
    destruct (last_In_or (map normalize (rawQualities stof token)) F32.one)
      as [-> | H]; [right; apply one_normalized|].
    apply in_map_iff in H. destruct H as (raw & <- & _). apply normalize_range. }
  split; [exact A|].
  apply Forall_forall. intros c H.
  destruct (selectContentTypes_In _ _ _ _ H) as (_ & _ & _ & _ & _ & _ & _ & Q).
  rewrite Q.
  destruct (scannedQuality_source
              (sort compareContentTypes (acceptedContentTypes stof header))
              (type c) (subtype c)) as [-> | (a & Ha & ->)]; [auto|].
  rewrite Forall_forall in A. destruct (A a Ha); auto.
Qed.

(** ** C2 and C7: what negotiation returns *)

(** [getPreferableContentType] returns the first available content type
    when no available entry has a '/', and otherwise the text of a
    candidate. *)
Lemma getPreferableContentType_cases (accepted : list ParsedContentType)
    (available : list string) :
  (Forall (fun entry => contains "/" entry = false) available
   /\ getPreferableContentType accepted available = front available)
  \/ (exists entry,
        In entry available /\ contains "/" entry = true
        /\ getPreferableContentType accepted available =
           Str.stringToLower (Str.trim entry)).
Proof.
  unfold getPreferableContentType.
  destruct (sort compareContentTypes (selectContentTypes accepted available 0))
    as [|best l] eqn:S.
  - left. apply sort_nil_inv in S. apply selectContentTypes_nil in S. now split.
  - right.
    assert (H : In best (selectContentTypes accepted available 0))
      by (apply (sort_in compareContentTypes); rewrite S; now left).
    destruct (selectContentTypes_range _ _ _ _ H) as (e & He & C & R).
    exists e. now rewrite <- R.
Qed.

Lemma empty_false (s : string) : s <> "" -> Str.empty s = false.
Proof. destruct s; [congruence | reflexivity]. Qed.

(** C2, as stated, fails: the header "x" leaves no accepted range, and
    negotiation returns the candidate "text/html", not the first available
    content type "Text/HTML". *)
Lemma no_accepted_range_not_front :
  ~ (acceptedContentTypes Stof.stof "x" = [] ->
     parse Stof.stof "x" ["Text/HTML"] = front ["Text/HTML"]).
Proof. intros H. specialize (H eq_refl). revert H. vm_compute. discriminate. Qed.

(** An element no earlier one comes after goes to the end. *)
Lemma linear_insert_last {A : Type} (comp : A -> A -> bool) (val x : A)
    (l : list A) :
  Forall (fun y => comp val y = false) (x :: l) ->
  linear_insert comp val (x :: l) = ((x :: l) ++ [val], true)%list.
Proof.
  revert x. induction l as [|y l IH]; intros x F.
  - inversion F as [|? ? C _]; subst. cbn. now rewrite C.
  - inversion F as [|? ? C F']; subst.
    change (linear_insert comp val (x :: y :: l))
      with (let (r, placed) := linear_insert comp val (y :: l) in
            if placed then (x :: r, true)
            else if comp val x then (x :: r, false)
            else (x :: val :: r, true)).
    now rewrite (IH y F').
Qed.

Lemma insert_last {A : Type} (comp : A -> A -> bool) (s : list A) (val : A) :
  Forall (fun y => comp val y = false) s ->
  insert comp s val = (s ++ [val])%list.
Proof.
  destruct s as [|first s]; [reflexivity|]. intros F. unfold insert.
  rewrite (linear_insert_last comp val first s F).
  inversion F as [|? ? C _]; subst. now rewrite C.
Qed.

(** A list in which no element comes before an earlier one is left as it
    is. *)
Lemma sort_in_order {A : Type} (comp : A -> A -> bool) (l : list A) :
  StronglySorted (fun x y => comp y x = false) l -> sort comp l = l.
Proof.
  unfold sort.
  assert (G : forall l acc,
             StronglySorted (fun x y => comp y x = false) (acc ++ l) ->
             fold_left (insert comp) l acc = (acc ++ l)%list).
  { clear l. induction l as [|v l IH]; intros acc S;
      [now rewrite app_nil_r|].
    cbn [fold_left].
    assert (F : Forall (fun y => comp v y = false) acc).
    { clear IH. induction acc as [|a acc IHa]; [constructor|].
      cbn [app] in S. apply StronglySorted_inv in S. destruct S as [S Fa].
      constructor; [|now apply IHa].
      rewrite Forall_forall in Fa. apply Fa. apply in_or_app. right. now left. }
    rewrite (insert_last comp acc v F), IH; rewrite <- app_assoc; [reflexivity|].
    exact S. }
  intros S. exact (G l [] S).
Qed.

Lemma candidatesSpec_orders (accepted : list ParsedContentType)
    (entries : list string) (o : Z) :
  Forall (fun c => (o <= order c)%Z) (candidatesSpec accepted entries o)
  /\ StronglySorted Z.lt (map order (candidatesSpec accepted entries o)).
Proof.
  revert o. induction entries as [|e rest IH]; intros o;
    [split; constructor|].
  destruct (IH (o + 1)%Z) as [B S]. cbn [candidatesSpec map]. split.
  - constructor; [cbn; lia|]. eapply Forall_impl; [|exact B]. cbn beta. lia.
  - constructor; [exact S|]. apply Forall_map.
    eapply Forall_impl; [|exact B]. cbn [order]. intros c. lia.
Qed.

(** Among entries of quality 0 without a wildcard, a later one never comes
    before an earlier one. *)
Lemma compareContentTypes_later (a v : ParsedContentType) :
  qvalue a = F32.zero -> qvalue v = F32.zero -> concrete a -> concrete v ->
  (order a < order v)%Z -> compareContentTypes v a = false.
Proof.
  intros Qa Qv [Ta Sa] [Tv Sv] O. unfold compareContentTypes.
  rewrite Qa, Qv. change (F32.ne F32.zero F32.zero) with false. cbn match.
  apply String.eqb_neq in Ta, Sa, Tv, Sv. rewrite Ta, Sa, Tv, Sv.
  assert (L : (order v <? order a)%Z = false) by (apply Z.ltb_ge; lia).
  rewrite L. now destruct (negb (type v =? type a)), (negb (subtype v =? subtype a)).
Qed.

Lemma candidates_in_order (l : list ParsedContentType) :
  StronglySorted Z.lt (map order l) ->
  Forall (fun c => qvalue c = F32.zero) l -> Forall concrete l ->
  StronglySorted (fun x y => compareContentTypes y x = false) l.
Proof.
  induction l as [|a l IH]; intros S Q C; [constructor|].
  cbn [map] in S. apply StronglySorted_inv in S. destruct S as [S Fa].
  inversion Q as [|? ? Qa Q']; subst. inversion C as [|? ? Ca C']; subst.
  constructor; [now apply IH|].
  rewrite Forall_forall in *. intros v Hv.
  apply compareContentTypes_later; auto.
  apply Fa. now apply in_map.
Qed.

(** C2, amended. When parsing leaves no accepted range: if the header is
    empty, or no available entry contains '/', negotiation returns the first
    available content type, or the empty string when there is none; if the
    header is not empty and some available entry contains '/', every
    candidate has quality 0 and negotiation returns the trimmed, lower-cased
    text of an available entry that contains '/': when no candidate has a
    wildcard type or subtype, that of the first available entry that
    contains '/'. *)
Theorem negotiation_without_accepted (stof : string -> option F32.float)
    (header : string) (available : list string) :
  acceptedContentTypes stof header = [] ->
  (header = "" \/ Forall (fun entry => contains "/" entry = false) available ->
   parse stof header available = front available)
  /\ (header <> "" ->
      Exists (fun entry => contains "/" entry = true) available ->
      Forall (fun c => qvalue c = F32.zero)
        (selectContentTypes
           (sort compareContentTypes (acceptedContentTypes stof header))
           available 0)
      /\ exists entry,
           In entry available /\ contains "/" entry = true
           /\ parse stof header available = Str.stringToLower (Str.trim entry))
  /\ (header <> "" ->
      Forall concrete
        (selectContentTypes
           (sort compareContentTypes (acceptedContentTypes stof header))
           available 0) ->
      forall entry rest,
        filter (contains "/") available = entry :: rest ->
        parse stof header available = candidateText entry).
Proof.
  intros A. unfold parse. rewrite A.
  assert (Z0 : Forall (fun c => qvalue c = F32.zero)
                 (selectContentTypes (sort compareContentTypes []) available 0)).
  { apply Forall_forall. intros c H.
    destruct (selectContentTypes_In _ _ _ _ H) as (_ & _ & _ & _ & _ & _ & _ & Q).
    rewrite Q. reflexivity. }
  split; [|split].
  - intros [-> | F]; [reflexivity|].
    destruct (Str.empty header); [reflexivity|].
    destruct (getPreferableContentType_cases (sort compareContentTypes []) available)
      as [[_ G] | (e & He & C & _)]; [exact G|].
    rewrite Forall_forall in F. rewrite (F e He) in C. discriminate.
  - intros N E. rewrite (empty_false _ N). split; [exact Z0|].
    destruct (getPreferableContentType_cases (sort compareContentTypes []) available)
      as [[F _] | H]; [|exact H].
    apply Exists_exists in E. destruct E as (e & He & C).
    rewrite Forall_forall in F. rewrite (F e He) in C. discriminate.
  - intros N C entry rest E. rewrite (empty_false _ N).
    unfold getPreferableContentType.
    rewrite (sort_in_order compareContentTypes
               (selectContentTypes (sort compareContentTypes []) available 0)).
    + rewrite selectContentTypes_spec, E. reflexivity.
    + apply candidates_in_order; [|exact Z0|exact C].
      rewrite selectContentTypes_spec. apply candidatesSpec_orders.
Qed.

Lemma negotiation_without_accepted_witness :
  parse Stof.stof "x" ["json"; "Text/HTML"; " a/b"] = candidateText "Text/HTML".
Proof.
  apply (proj2 (proj2 (negotiation_without_accepted Stof.stof "x"
                         ["json"; "Text/HTML"; " a/b"] eq_refl)))
    with (rest := [" a/b"]).
  - discriminate.
  - apply Forall_forall. intros c H. vm_compute in H.
    destruct H as [<- | [<- | []]]; split; discriminate.
  - reflexivity.
Defined.

(** C7, as stated, fails: the available list [""] is not empty, and the
    result is the empty string. *)
Lemma empty_result_nonempty_list :
  ~ (parse Stof.stof "" [""] = "" -> [""] = @nil string).
Proof. intros H. specialize (H eq_refl). discriminate. Qed.

(** C7, amended. [parse] always returns a string, and that string is empty
    only if the available list is empty or its first entry is the empty
    string. *)
Theorem parse_empty_result (stof : string -> option F32.float)
    (header : string) (available : list string) :
  parse stof header available = "" ->
  available = [] \/ front available = "".
Proof.
  unfold parse. destruct (Str.empty header); [now right|].
  destruct (getPreferableContentType_cases
              (sort compareContentTypes (acceptedContentTypes stof header))
              available) as [[_ ->] | (e & _ & C & ->)]; [now right|].
  intros E. rewrite <- ContainsFacts.contains_candidate, E in C. discriminate.
Qed.

Lemma parse_empty_result_witness :
  @nil string = [] \/ front [] = "".
Proof. apply (parse_empty_result Stof.stof "text/html" []). reflexivity. Defined.

(** ** C6: a token whose q does not parse *)

Lemma past_fields (n : Z) (ct : ParsedContentType) :
  range (past n ct) = range ct /\ type (past n ct) = type ct
  /\ subtype (past n ct) = subtype ct /\ qvalue (past n ct) = qvalue ct.
Proof. unfold past. now destruct (order ct <? n)%Z. Qed.

Lemma past_order (n : Z) (a b : ParsedContentType) :
  (order (past n a) <? order (past n b))%Z = (order a <? order b)%Z.
Proof.
  unfold past.
  destruct (order a <? n)%Z eqn:A, (order b <? n)%Z eqn:B;
    cbn [order with_order];
    destruct (order a <? order b)%Z eqn:C; lia.
Qed.

(** The comparator does not see the renumbering. *)
Lemma compareContentTypes_past (n : Z) (a b : ParsedContentType) :
  compareContentTypes (past n a) (past n b) = compareContentTypes a b.
Proof.
  unfold compareContentTypes. rewrite past_order.
  destruct (past_fields n a) as (_ & -> & -> & ->).
  destruct (past_fields n b) as (_ & -> & -> & ->).
  reflexivity.
Qed.

(** Nor does the scan. *)
Lemma matchAccepted_past (n : Z) (st : ParsedContentType * bool)
    (a : ParsedContentType) :
  matchAccepted st (past n a) = matchAccepted st a.
Proof.
  unfold matchAccepted. destruct st as [sel m].
  destruct (past_fields n a) as (_ & -> & -> & ->). reflexivity.
Qed.

Lemma selectContentTypes_past (n : Z) (accepted : list ParsedContentType)
    (available : list string) (order : Z) :
  selectContentTypes (map (past n) accepted) available order =
  selectContentTypes accepted available order.
Proof.
  assert (F : forall st, fold_left matchAccepted (map (past n) accepted) st
                         = fold_left matchAccepted accepted st).
  { induction accepted as [|a l IH]; intros st; [reflexivity|].
    cbn [map fold_left]. now rewrite matchAccepted_past, IH. }
  revert order. induction available as [|e rest IH]; intros order; [reflexivity|].
  cbn [selectContentTypes].
  destruct (Str.find "/" (Str.stringToLower (Str.trim e))); [|apply IH].
  now rewrite F, IH.
Qed.

Lemma getPreferableContentType_past (n : Z) (accepted : list ParsedContentType)
    (available : list string) :
  getPreferableContentType (map (past n) accepted) available =
  getPreferableContentType accepted available.
Proof. unfold getPreferableContentType. now rewrite selectContentTypes_past. Qed.

(** Taking a discarded token out of the list of tokens renumbers the
    accepted ranges that follow it, and changes nothing else. *)
Lemma parseTokens_without (stof : string -> option F32.float)
    (l1 l2 : list string) (token : string) :
  parseToken stof token (Z.of_nat (List.length l1)) = None ->
  parseTokens stof (l1 ++ token :: l2) 0 =
  map (past (Z.of_nat (List.length l1))) (parseTokens stof (l1 ++ l2) 0).
Proof.
  intros D. rewrite !parseTokens_app, map_app. cbn [parseTokens Z.add].
  rewrite D, parseTokens_shift. f_equal.
  - pose proof (parseTokens_order stof l1 0) as O.
    induction O as [|c l Hc _ IH]; [reflexivity|].
    cbn [map]. rewrite <- IH. f_equal. unfold past.
    destruct (order c <? Z.of_nat (List.length l1))%Z eqn:E; [reflexivity | lia].
  - pose proof (parseTokens_order stof l2 (Z.of_nat (List.length l1))) as O.
    induction O as [|c l Hc _ IH]; [reflexivity|].
    cbn [map]. rewrite <- IH. f_equal. unfold past.
    destruct (order c <? Z.of_nat (List.length l1))%Z eqn:E; [lia | reflexivity].
Qed.

(** C6, as stated, fails: "a/b;q=x" is a header whose only token has a q
    that does not parse; with the token removed the header is empty and the
    first available content type comes back as given, with the token there
    it comes back lower-cased. *)
Lemma unparseable_sole_token :
  hasUnparseableQuality Stof.stof "a/b;q=x" = true
  /\ parse Stof.stof "a/b;q=x" ["A/B"] <> parse Stof.stof "" ["A/B"].
Proof. split; [reflexivity | vm_compute; discriminate]. Qed.

(** C6, amended. If a comma-token of the header has a q parameter whose
    value does not parse, the output is the output on any non-empty header
    whose comma-tokens are the same with that token taken out. *)
Theorem unparseable_token_removed (stof : string -> option F32.float)
    (header header' : string) (l1 l2 : list string) (token : string)
    (available : list string) :
  Str.pieces "," header = (l1 ++ token :: l2)%list ->
  Str.pieces "," header' = (l1 ++ l2)%list ->
  header' <> "" ->
  hasUnparseableQuality stof token = true ->
  parse stof header available = parse stof header' available.
Proof.
  intros P P' N U. unfold parse, acceptedContentTypes.
  rewrite (empty_false _ N), P, P'.
  assert (E : Str.empty header = false).
  { destruct header; [|reflexivity]. cbn in P. now destruct l1. }
  rewrite E.
  rewrite (parseTokens_without stof l1 l2 token
             (parseToken_unparseable stof token _ U)).
  rewrite (sort_map compareContentTypes compareContentTypes _
             (compareContentTypes_past _)).
  apply getPreferableContentType_past.
Qed.

Lemma unparseable_token_removed_witness :
  parse Stof.stof "text/html, a/b;q=x, text/*;q=0.5" ["text/plain"; "TEXT/HTML"]
  = parse Stof.stof "text/html, text/*;q=0.5" ["text/plain"; "TEXT/HTML"].
Proof.
  apply (unparseable_token_removed Stof.stof _ _
           ["text/html"] [" text/*;q=0.5"] " a/b;q=x");
    first [reflexivity | discriminate].
Defined.

(** ** C5: the comparator *)

Lemma SFcompare_refl (q : F32.float) :
  F32.is_nan q = false -> SFcompare q q = Some Eq.
Proof.
  destruct q as [s|s| |s m e]; try discriminate; intros _; cbn [SFcompare].
  - reflexivity.
  - now destruct s.
  - rewrite Z.compare_refl.
    change (Pos.compare_cont Eq m m) with (Pos.compare m m).
    rewrite Pos.compare_refl. now destruct s.
Qed.

(** No entry comes before itself. *)
Lemma compareContentTypes_irrefl (a : ParsedContentType) :
  compareContentTypes a a = false.
Proof.
  unfold compareContentTypes, F32.ne, F32.gt, SFeqb, SFltb.
  destruct (F32.is_nan (qvalue a)) eqn:N.
  - destruct (qvalue a); try discriminate. reflexivity.
  - rewrite (SFcompare_refl _ N). cbn [negb].
    rewrite !String.eqb_refl. cbn [negb]. apply Z.ltb_irrefl.
Qed.

(** Of two entries at most one comes before the other. *)
Lemma compareContentTypes_asym (a b : ParsedContentType) :
  compareContentTypes a b = true -> compareContentTypes b a = false.
Proof.
  unfold compareContentTypes. rewrite (F32Facts.ne_sym (qvalue b) (qvalue a)).
  destruct (F32.ne (qvalue a) (qvalue b)); [apply F32Facts.gt_asym|].
  rewrite (String.eqb_sym (type b) (type a)),
          (String.eqb_sym (subtype b) (subtype a)).
  destruct (String.eqb_spec (type a) (type b)) as [T|T]; cbn [negb].
  - destruct (String.eqb_spec (subtype a) (subtype b)) as [S|S]; cbn [negb].
    + intros H. apply Z.ltb_lt in H. apply Z.ltb_ge. lia.
    + destruct (String.eqb_spec (subtype a) "*") as [A|A],
               (String.eqb_spec (subtype b) "*") as [B|B];
        try congruence.
      intros H. apply Z.ltb_lt in H. apply Z.ltb_ge. lia.
  - destruct (String.eqb_spec (type a) "*") as [A|A],
             (String.eqb_spec (type b) "*") as [B|B];
      try congruence.
    intros H. apply Z.ltb_lt in H. apply Z.ltb_ge. lia.
Qed.

(** Of two entries with different orders and qualities that are not NaN,
    one comes before the other. *)
Lemma compareContentTypes_total (a b : ParsedContentType) :
  F32.is_nan (qvalue a) = false -> F32.is_nan (qvalue b) = false ->
  order a <> order b ->
  compareContentTypes a b = true \/ compareContentTypes b a = true.
Proof.
  intros Na Nb O.
  assert (L : (order a <? order b)%Z = true \/ (order b <? order a)%Z = true)
    by (rewrite !Z.ltb_lt; lia).
  unfold compareContentTypes. rewrite (F32Facts.ne_sym (qvalue b) (qvalue a)).
  destruct (F32.ne (qvalue a) (qvalue b)) eqn:Q;
    [now apply F32Facts.total|].
  rewrite (String.eqb_sym (type b) (type a)),
          (String.eqb_sym (subtype b) (subtype a)).
  destruct (String.eqb_spec (type a) (type b)) as [T|T]; cbn [negb].
  - destruct (String.eqb_spec (subtype a) (subtype b)) as [S|S]; cbn [negb];
      [exact L|].
    destruct (String.eqb_spec (subtype a) "*") as [A|A],
             (String.eqb_spec (subtype b) "*") as [B|B];
      auto; congruence.
  - destruct (String.eqb_spec (type a) "*") as [A|A],
             (String.eqb_spec (type b) "*") as [B|B];
      auto; congruence.
Qed.

(** On qualities that are not NaN the comparator is the precedence of the
    specification. *)
Lemma compareContentTypes_precedes (a b : ParsedContentType) :
  F32.is_nan (qvalue a) = false -> F32.is_nan (qvalue b) = false ->
  compareContentTypes a b = precedes a b.
Proof.
  intros Na Nb. unfold compareContentTypes, precedes.
  destruct (F32.ne (qvalue a) (qvalue b)) eqn:Q.
  - destruct (F32Facts.total _ _ Na Nb Q) as [G | G].
    + now rewrite G.
    + rewrite (F32Facts.gt_asym _ _ G), G. reflexivity.
  - rewrite (F32Facts.ne_irrefl_gt _ _ Q).
    rewrite F32Facts.ne_sym in Q. rewrite (F32Facts.ne_irrefl_gt _ _ Q).
    reflexivity.
Qed.

(** C5. The comparator is not a strict total order on entries with distinct
    orders: the three accepted ranges of the header
    "text/html, application/json, text/*" have the orders 0, 1, 2 and the
    same quality, and each of them comes before the next one around:
    text/html before application/json and application/json before text/* by
    their order, text/* before text/html by its wildcard.  The comparator is
    not transitive on them. *)
Theorem compareContentTypes_cycle :
  exists a b c,
    acceptedContentTypes Stof.stof "text/html, application/json, text/*"
      = [a; b; c]
    /\ (order a, order b, order c) = (0, 1, 2)%Z
    /\ compareContentTypes a b = true
    /\ compareContentTypes b c = true
    /\ compareContentTypes c a = true
    /\ compareContentTypes a c = false.
Proof.
  do 3 eexists. split; [vm_compute; reflexivity|].
  repeat split; vm_compute; reflexivity.
Qed.

(** ** C10: rejection and absence of a match *)

Module RankFacts.
Import F32.

(** What comes before a value that is 0 or more is 0 or more. *)
Lemma nonneg_up (v h : float) :
  le zero h = true -> gt v h = true \/ ne v h = false -> le zero v = true.
Proof.
  unfold le, gt, ne, SFleb, SFltb, SFeqb, zero.
  destruct h as [sh|sh| |sh mh eh], v as [sv|sv| |sv mv ev];
    cbn [SFcompare negb];
    try (destruct sh); try (destruct sv); cbn [negb];
    intros H [G | G]; try reflexivity; try discriminate.
Qed.

(** A value that is 0 or more is above one that is below 0. *)
Lemma nonneg_above (v h : float) :
  le zero v = true -> is_nan h = false -> le zero h = false ->
  ne v h = true /\ gt v h = true.
Proof.
  unfold le, gt, ne, SFleb, SFltb, SFeqb, zero.
  destruct h as [sh|sh| |sh mh eh], v as [sv|sv| |sv mv ev];
    cbn [SFcompare negb is_nan];
    try (destruct sh); try (destruct sv); cbn [negb];
    intros H N L; try discriminate; split; reflexivity.
Qed.

Lemma comp_true_not_nan (a b : ParsedContentType) :
  compareContentTypes a b = true -> is_nan (qvalue b) = false.
Proof.
  unfold compareContentTypes, ne, gt, SFeqb, SFltb.
  rewrite (F32Facts.SFcompare_antisym (qvalue a) (qvalue b)).
  destruct (qvalue b); try reflexivity.
  destruct (qvalue a); cbn [SFcompare option_map negb]; discriminate.
Qed.

Lemma comp_true_ge (a b : ParsedContentType) :
  compareContentTypes a b = true ->
  gt (qvalue a) (qvalue b) = true \/ ne (qvalue a) (qvalue b) = false.
Proof.
  unfold compareContentTypes.
  destruct (ne (qvalue a) (qvalue b)); [now left | now right].
Qed.

End RankFacts.

(** Each element in turn either becomes the first or leaves the first in
    place. *)
Lemma insert_hd {A : Type} (comp : A -> A -> bool) (first val : A) (l : list A) :
  exists t, insert comp (first :: l) val
            = (if comp val first then val else first) :: t.
Proof.
  unfold insert. destruct (comp val first) eqn:C; [eauto|].
  cbn [linear_insert]. destruct (linear_insert comp val l) as [r placed].
  destruct placed; [eauto|]. rewrite C. eauto.
Qed.

(** If some entry has a quality of 0 or more, the first entry of the sorted
    list has one too, or a NaN. *)
Lemma sort_head_nonneg (l : list ParsedContentType) (h : ParsedContentType)
    (t : list ParsedContentType) :
  sort compareContentTypes l = h :: t ->
  Exists (fun c => F32.le F32.zero (qvalue c) = true) l ->
  F32.is_nan (qvalue h) = true \/ F32.le F32.zero (qvalue h) = true.
Proof.
  unfold sort.
  set (good := fun c : ParsedContentType => F32.le F32.zero (qvalue c) = true).
  set (inv := fun s : list ParsedContentType =>
                forall h t, s = h :: t -> Exists good s ->
                            F32.is_nan (qvalue h) = true \/ good h).
  assert (Step : forall s v, inv s -> inv (insert compareContentTypes s v)
                             /\ (Exists good s \/ good v ->
                                 Exists good (insert compareContentTypes s v))).
  { intros s v I. split.
    - intros h' t' E X.
      assert (X' : Exists good (v :: s)).
      { apply Exists_exists in X. destruct X as (x & Hx & Gx).
        apply Exists_exists. exists x. split; [|exact Gx].
        apply (Permutation_in x (insert_perm compareContentTypes s v) Hx). }
      destruct s as [|f s']; [cbn in E; injection E as <- <-;
                              right; inversion X' as [? ? G|? ? G]; [exact G | inversion G]|].
      destruct (insert_hd compareContentTypes f v s') as [t0 H0].
      rewrite H0 in E. injection E as <- _.
      destruct (compareContentTypes v f) eqn:C.
      + right. inversion X' as [? ? G|? ? G]; [exact G|].
        destruct (I f s' eq_refl G) as [N | G'].
        * rewrite (RankFacts.comp_true_not_nan _ _ C) in N. discriminate.
        * apply (RankFacts.nonneg_up _ (qvalue f) G').
          now apply RankFacts.comp_true_ge.
      + inversion X' as [? ? G|? ? G]; [|now apply (I f s' eq_refl)].
        destruct (F32.is_nan (qvalue f)) eqn:N; [now left | right].
        unfold good.
        destruct (F32.le F32.zero (qvalue f)) eqn:L; [reflexivity|].
        destruct (RankFacts.nonneg_above _ _ G N L) as [Q1 Q2].
        unfold compareContentTypes in C. rewrite Q1, Q2 in C. discriminate.
    - intros X. apply Exists_exists.
      assert (X' : Exists good (v :: s))
        by (destruct X; [now apply Exists_cons_tl | now apply Exists_cons_hd]).
      apply Exists_exists in X'. destruct X' as (x & Hx & Gx).
      exists x. split; [|exact Gx].
      apply (Permutation_in x (Permutation_sym (insert_perm compareContentTypes s v)) Hx). }
  assert (Fold : forall l s, inv s ->
                   inv (fold_left (insert compareContentTypes) l s)
                   /\ (Exists good s \/ Exists good l ->
                       Exists good (fold_left (insert compareContentTypes) l s))).
  { clear l h t. induction l as [|v l IH]; intros s I.
    - split; [exact I|]. intros [X | X]; [exact X | inversion X].
    - cbn [fold_left]. destruct (Step s v I) as [I' X'].
      destruct (IH _ I') as [I'' X'']. split; [exact I''|].
      intros [X | X]; apply X''.
      + left. apply X'. now left.
      + inversion X as [? ? G|? ? G]; [left; apply X'; now right | now right]. }
  intros E X.
  assert (I0 : inv []) by (intros ? ? D; discriminate D).
  destruct (Fold l [] I0) as [I X'].
  apply (I h t E). apply X'. now right.
Qed.

(** The comparator never puts a rejected entry before one of quality 0 or
    more, and always puts the latter before the former. *)
Lemma rejected_never_preferred (a b : ParsedContentType) :
  qvalue a = F32.minus_one -> F32.le F32.zero (qvalue b) = true ->
  compareContentTypes a b = false /\ compareContentTypes b a = true.
Proof.
  intros A B. destruct (F32Facts.minus_one_below _ B) as (N & G1 & G2).
  unfold compareContentTypes.
  rewrite <- (F32Facts.ne_sym (qvalue a) (qvalue b)), A, N, G1, G2. now split.
Qed.

(** When the first of the sorted candidates is rejected, no candidate has a
    quality of 0 or more. *)
Lemma rejected_first (accepted : list ParsedContentType)
    (available : list string) (h : ParsedContentType)
    (t : list ParsedContentType) :
  sort compareContentTypes (selectContentTypes accepted available 0) = h :: t ->
  qvalue h = F32.minus_one ->
  Forall (fun c => F32.le F32.zero (qvalue c) = false)
    (selectContentTypes accepted available 0).
Proof.
  intros S Q. apply Forall_forall. intros c Hc.
  destruct (F32.le F32.zero (qvalue c)) eqn:L; [|reflexivity].
  assert (X : Exists (fun c => F32.le F32.zero (qvalue c) = true)
                (selectContentTypes accepted available 0))
    by (apply Exists_exists; eauto).
  destruct (sort_head_nonneg _ _ _ S X) as [N | G]; rewrite Q in *; discriminate.
Qed.

(** C10. With the header "a/a;q=0, b/b;q=nan" and the available content
    types a/a and b/b, the candidate a/a has the rejection sentinel -1.0 and
    the candidate b/b has a NaN, which the range test of the parser lets
    through; b/b is not rejected, a/a is not the only candidate, and a/a is
    returned. *)
Theorem rejected_returned_beside_nan :
  map (fun c => (range c, qvalue c))
    (selectContentTypes
       (sort compareContentTypes
          (acceptedContentTypes Stof.stof "a/a;q=0, b/b;q=nan"))
       ["a/a"; "b/b"] 0)
  = [("a/a", F32.minus_one); ("b/b", S754_nan)]
  /\ parse Stof.stof "a/a;q=0, b/b;q=nan" ["a/a"; "b/b"] = "a/a".
Proof. split; vm_compute; reflexivity. Qed.

(** * Further properties of the code *)

(** ** trim and stringToLower *)

Lemma append_assoc (a b c : string) : (a ++ b) ++ c = a ++ (b ++ c).
Proof. induction a as [|x a IH]; simpl; [reflexivity | now rewrite IH]. Qed.

Lemma append_empty_r (a : string) : a ++ "" = a.
Proof. induction a as [|x a IH]; simpl; [reflexivity | now rewrite IH]. Qed.

Lemma ltrim_split (s : string) :
  exists pre, s = pre ++ Str.ltrim s /\ blank pre = true.
Proof.
  induction s as [|c s (pre & E & B)]; [now exists ""|].
  cbn [Str.ltrim]. destruct (Str.is_trim_char c) eqn:T.
  - exists (String c pre). cbn [append blank]. now rewrite T, B, <- E.
  - now exists "".
Qed.

Lemma ltrim_first (s : string) : solid (first_char (Str.ltrim s)).
Proof.
  induction s as [|c s IH]; [exact I|].
  cbn [Str.ltrim]. destruct (Str.is_trim_char c) eqn:T; [exact IH | exact T].
Qed.

Lemma rtrim_split (s : string) :
  exists post, s = Str.rtrim s ++ post /\ blank post = true.
Proof.
  induction s as [|c s (post & E & B)]; [now exists ""|].
  cbn [Str.rtrim]. destruct (Str.rtrim s) as [|d r].
  - destruct (Str.is_trim_char c) eqn:T.
    + exists (String c post). cbn [append blank]. now rewrite T, B, E.
    + exists post. cbn [append]. now rewrite E.
  - exists post. cbn [append] in *. now rewrite <- E.
Qed.

Lemma last_char_none (s : string) : last_char s = None -> s = "".
Proof.
  destruct s as [|c s]; [reflexivity|]. cbn. now destruct (last_char s).
Qed.

Lemma rtrim_last (s : string) : solid (last_char (Str.rtrim s)).
Proof.
  induction s as [|c s IH]; [exact I|].
  cbn [Str.rtrim]. destruct (Str.rtrim s) as [|d r] eqn:R.
  - destruct (Str.is_trim_char c) eqn:T; [exact I | exact T].
  - cbn [last_char] in *. destruct (last_char r); exact IH.
Qed.

Lemma ltrim_last (s : string) :
  Str.ltrim s = "" \/ last_char (Str.ltrim s) = last_char s.
Proof.
  induction s as [|c s IH]; [now left|].
  cbn [Str.ltrim]. destruct (Str.is_trim_char c); [|now right].
  destruct IH as [E | E]; [now left|].
  destruct (last_char s) eqn:L.
  - right. rewrite E. cbn [last_char]. now rewrite L.
  - left. apply last_char_none in L. now subst s.
Qed.

Lemma trim_ends (s : string) :
  solid (first_char (Str.trim s)) /\ solid (last_char (Str.trim s)).
Proof.
  unfold Str.trim. split; [apply ltrim_first|].
  destruct (ltrim_last (Str.rtrim s)) as [-> | ->]; [exact I | apply rtrim_last].
Qed.

Lemma ltrim_fix (s : string) : solid (first_char s) -> Str.ltrim s = s.
Proof. destruct s as [|c s]; [reflexivity|]. cbn. now intros ->. Qed.

Lemma rtrim_fix (s : string) : solid (last_char s) -> Str.rtrim s = s.
Proof.
  induction s as [|c s IH]; [reflexivity|].
  cbn [last_char Str.rtrim]. destruct (last_char s) eqn:L.
  - intros H. rewrite (IH H). destruct s; [discriminate | reflexivity].
  - apply last_char_none in L. subst s. cbn. now intros ->.
Qed.

Lemma trim_idempotent (s : string) : Str.trim (Str.trim s) = Str.trim s.
Proof.
  destruct (trim_ends s) as [F L].
  unfold Str.trim at 1. now rewrite (rtrim_fix _ L), (ltrim_fix _ F).
Qed.

Lemma tolower_idempotent (c : ascii) : Str.tolower (Str.tolower c) = Str.tolower c.
Proof. destruct c as [[] [] [] [] [] [] [] []]; reflexivity. Qed.

Lemma tolower_trim_char (c : ascii) :
  Str.is_trim_char (Str.tolower c) = Str.is_trim_char c.
Proof. destruct c as [[] [] [] [] [] [] [] []]; reflexivity. Qed.

Lemma stringToLower_idempotent (s : string) :
  Str.stringToLower (Str.stringToLower s) = Str.stringToLower s.
Proof.
  induction s as [|c s IH]; [reflexivity|].
  cbn. now rewrite tolower_idempotent, IH.
Qed.

Lemma stringToLower_ltrim (s : string) :
  Str.stringToLower (Str.ltrim s) = Str.ltrim (Str.stringToLower s).
Proof.
  induction s as [|c s IH]; [reflexivity|].
  cbn [Str.ltrim Str.stringToLower]. rewrite tolower_trim_char.
  destruct (Str.is_trim_char c); [exact IH | reflexivity].
Qed.

Lemma stringToLower_rtrim (s : string) :
  Str.stringToLower (Str.rtrim s) = Str.rtrim (Str.stringToLower s).
Proof.
  induction s as [|c s IH]; [reflexivity|].
  cbn [Str.rtrim Str.stringToLower]. rewrite <- IH, tolower_trim_char.
  destruct (Str.rtrim s) as [|d r]; cbn [Str.stringToLower];
    [now destruct (Str.is_trim_char c) | reflexivity].
Qed.

Lemma stringToLower_trim (s : string) :
  Str.stringToLower (Str.trim s) = Str.trim (Str.stringToLower s).
Proof. unfold Str.trim. now rewrite stringToLower_ltrim, stringToLower_rtrim. Qed.

Lemma candidateText_idempotent (s : string) :
  candidateText (candidateText s) = candidateText s.
Proof.
  unfold candidateText.
  now rewrite <- stringToLower_trim, stringToLower_idempotent, trim_idempotent.
Qed.

(** X1. [trim] takes a run of white space off each end and nothing else:
    the text is a blank run, the trimmed text, and a blank run, and the
    trimmed text neither starts nor ends with white space. *)
Theorem trim_strips_both_ends (s : string) :
  (exists pre post,
      s = pre ++ Str.trim s ++ post /\ blank pre = true /\ blank post = true)
  /\ solid (first_char (Str.trim s))
  /\ solid (last_char (Str.trim s)).
Proof.
  split; [|apply trim_ends].
  destruct (rtrim_split s) as (post & E & B).
  destruct (ltrim_split (Str.rtrim s)) as (pre & E' & B').
  exists pre, post. unfold Str.trim. repeat split; auto.
  now rewrite <- append_assoc, <- E'.
Qed.

(** X2. Trimming and lower-casing can be done in either order and doing
    either twice changes nothing more, so the text of a candidate is
    already in the form the negotiator gives it. *)
Theorem trim_stringToLower_normal_form (s : string) :
  Str.stringToLower (Str.trim s) = Str.trim (Str.stringToLower s)
  /\ Str.trim (Str.trim s) = Str.trim s
  /\ Str.stringToLower (Str.stringToLower s) = Str.stringToLower s
  /\ Str.stringToLower (Str.trim (Str.stringToLower (Str.trim s)))
     = Str.stringToLower (Str.trim s).
Proof.
  repeat split;
    [apply stringToLower_trim | apply trim_idempotent
     | apply stringToLower_idempotent | apply candidateText_idempotent].
Qed.

(** ** std::getline loops *)

Lemma last_char_cons (c : ascii) (s : string) :
  s <> "" -> last_char (String c s) = last_char s.
Proof.
  intros N. cbn [last_char]. destruct (last_char s) eqn:L; [reflexivity|].
  now apply last_char_none in L.
Qed.

Lemma concat_cons (sep p : string) (c : ascii) (ps : list string) :
  String.concat sep (String c p :: ps) = String c (String.concat sep (p :: ps)).
Proof. cbn [String.concat]. now destruct ps. Qed.

(** X3. The pieces a [getline] loop hands out never contain the delimiter,
    and joined by the delimiter they give the text back, up to one
    delimiter that closes the text: a closing delimiter opens no further
    piece. *)
Theorem pieces_join (delim : ascii) (s : string) :
  Forall (fun piece => contains delim piece = false) (Str.pieces delim s)
  /\ s = String.concat (String delim "") (Str.pieces delim s) ++ closing delim s.
Proof.
  induction s as [|c s [F E]]; [split; [constructor | reflexivity]|].
  cbn [Str.pieces]. destruct (Ascii.eqb c delim) eqn:D.
  - apply Ascii.eqb_eq in D. subst c. split; [constructor; [reflexivity | exact F]|].
    destruct (Str.pieces delim s) as [|p ps] eqn:P.
    + apply StrFacts.pieces_nil in P. subst s.
      unfold closing. cbn. now rewrite Ascii.eqb_refl.
    + assert (N : s <> "") by (intros ->; discriminate P).
      unfold closing. rewrite (last_char_cons _ _ N). fold (closing delim s).
      exact (f_equal (String delim) E).
  - destruct (Str.pieces delim s) as [|p ps] eqn:P.
    + apply StrFacts.pieces_nil in P. subst s. split.
      * constructor; [|constructor].
        rewrite ContainsFacts.contains_cons, D. reflexivity.
      * unfold closing. cbn. now rewrite D.
    + assert (N : s <> "") by (intros ->; discriminate P).
      split.
      * inversion F; subst. constructor; [|assumption].
        rewrite ContainsFacts.contains_cons, D. assumption.
      * rewrite concat_cons. unfold closing. rewrite (last_char_cons _ _ N).
        fold (closing delim s). exact (f_equal (String c) E).
Qed.

Lemma pieces_closed (delim c : ascii) (s : string) :
  last_char s = Some c -> Ascii.eqb c delim = false ->
  Str.pieces delim (s ++ String delim "") = Str.pieces delim s.
Proof.
  induction s as [|a s IH]; [discriminate|].
  intros L D. destruct s as [|b s].
  - cbn in L. injection L as ->. cbn. now rewrite D, Ascii.eqb_refl.
  - rewrite last_char_cons in L by discriminate.
    change (String a (String b s) ++ String delim "")
      with (String a (String b s ++ String delim "")).
    cbn [Str.pieces]. fold (Str.pieces delim (String b s ++ String delim "")).
    fold (Str.pieces delim (String b s)).
    now rewrite (IH L D).
Qed.

(** X4. A comma that closes the header after a last token is ignored: it
    opens no further token, and the result is that of the header without it. *)
Theorem closing_comma_ignored (stof : string -> option F32.float)
    (header : string) (c : ascii) (available : list string) :
  last_char header = Some c -> c <> ","%char ->
  parse stof (header ++ ",") available = parse stof header available.
Proof.
  intros L N. unfold parse, acceptedContentTypes.
  apply Ascii.eqb_neq in N. rewrite (pieces_closed _ _ _ L N).
  destruct header; [discriminate | reflexivity].
Qed.

Lemma closing_comma_ignored_witness :
  parse Stof.stof ("text/html;q=0.2, text/plain" ++ ",") ["text/plain"]
  = parse Stof.stof "text/html;q=0.2, text/plain" ["text/plain"].
Proof.
  apply (closing_comma_ignored Stof.stof _ "n"%char); [reflexivity | discriminate].
Defined.

(** ** The token loop of parse *)

Lemma parseTokens_increasing (stof : string -> option F32.float)
    (tokens : list string) (o : Z) :
  StronglySorted Z.lt (map order (parseTokens stof tokens o)).
Proof.
  revert o. induction tokens as [|t rest IH]; intros o; [constructor|].
  cbn [parseTokens].
  destruct (parseToken stof t o) as [ct|] eqn:E; [|apply IH].
  cbn [map]. constructor; [apply IH|].
  apply parseToken_some in E. destruct E as [-> _].
  apply Forall_map. eapply Forall_impl; [|apply (parseTokens_order stof rest (o + 1))].
  cbn beta. intros c. lia.
Qed.

(** X5. Before they are sorted, the accepted ranges stand in the order of
    their tokens: the order of each is the position, counted from 0 over all
    the comma-tokens of the header and not only the accepted ones, of the
    token it was parsed from, and the orders increase strictly along the
    list, so no two are equal. *)
Theorem accepted_order_is_token_position (stof : string -> option F32.float)
    (header : string) :
  Forall
    (fun ct =>
       exists token,
         (0 <= order ct)%Z
         /\ nth_error (Str.pieces "," header) (Z.to_nat (order ct)) = Some token
         /\ parseToken stof token (order ct) = Some ct)
    (acceptedContentTypes stof header)
  /\ StronglySorted Z.lt (map order (acceptedContentTypes stof header)).
Proof.
  split; [|apply parseTokens_increasing].
  eapply Forall_impl; [|apply parseTokens_origin]. cbn beta.
  intros ct (token & k & N & O & P). exists token.
  assert (O' : order ct = Z.of_nat k) by lia.
  repeat split; [lia | | exact P].
  now rewrite O', Nat2Z.id.
Qed.

Lemma parseParameter_has_equals (stof : string -> option F32.float)
    (ct ct' : ParsedContentType) (param : string) :
  parseParameter stof ct param = Some ct' -> contains "=" param = true.
Proof.
  unfold parseParameter, contains.
  now destruct (Str.find "=" param).
Qed.

Lemma parseParams_have_equals (stof : string -> option F32.float)
    (rest : list string) (ct ct' : ParsedContentType) :
  parseParams stof rest false ct = Some ct' ->
  forallb (contains "=") (map Str.trim rest) = true.
Proof.
  revert ct. induction rest as [|p rest IH]; intros ct H; [reflexivity|].
  cbn [parseParams] in H.
  destruct (parseParameter stof ct (Str.trim p)) as [c1|] eqn:P; [|discriminate].
  cbn [map forallb]. rewrite (parseParameter_has_equals _ _ _ _ P).
  exact (IH _ H).
Qed.

(** X6. One parameter without a '=' discards the whole token, whatever the
    media-range and the other parameters are. *)
Theorem parameter_without_equals_discards (stof : string -> option F32.float)
    (token : string) (o : Z) :
  forallb (contains "=") (parameters token) = false ->
  parseToken stof token o = None.
Proof.
  unfold parseToken, parameters. cbn [range]. intros H.
  destruct (Str.pieces ";" (Str.trim token)) as [|p rest]; [discriminate|].
  cbn [tl] in H. cbn [parseParams].
  destruct (parseMediaRange _ (Str.trim p)) as [c1|]; [|reflexivity].
  destruct (parseParams stof rest false c1) as [ct|] eqn:P; [|reflexivity].
  apply parseParams_have_equals in P. congruence.
Qed.

Lemma parameter_without_equals_discards_witness :
  parseToken Stof.stof "text/html;q=0.5;level" 0 = None.
Proof.
  apply (parameter_without_equals_discards Stof.stof). reflexivity.
Defined.

Lemma pieces_without (c delim : ascii) (s : string) :
  contains c s = false ->
  Forall (fun piece => contains c piece = false) (Str.pieces delim s).
Proof.
  induction s as [|a s IH]; [constructor|].
  rewrite ContainsFacts.contains_cons. intros H.
  apply orb_false_iff in H. destruct H as [A H]. specialize (IH H).
  cbn [Str.pieces]. destruct (Ascii.eqb a delim).
  - constructor; [reflexivity | exact IH].
  - destruct (Str.pieces delim s) as [|p ps].
    + constructor; [|constructor]. now rewrite ContainsFacts.contains_cons, A.
    + inversion IH; subst. constructor; [|assumption].
      now rewrite ContainsFacts.contains_cons, A.
Qed.

Lemma contains_trim (s : string) : contains "/" (Str.trim s) = contains "/" s.
Proof.
  unfold Str.trim.
  now rewrite ContainsFacts.contains_ltrim, ContainsFacts.contains_rtrim.
Qed.

(** X7. A token that is not blank and has no '/' anywhere is discarded. *)
Theorem token_without_slash_discarded (stof : string -> option F32.float)
    (token : string) (o : Z) :
  contains "/" token = false -> Str.trim token <> "" ->
  parseToken stof token o = None.
Proof.
  intros C N. unfold parseToken. cbn [range].
  rewrite <- contains_trim in C.
  pose proof (pieces_without "/" ";" _ C) as F.
  destruct (Str.pieces ";" (Str.trim token)) as [|p rest] eqn:P;
    [now apply StrFacts.pieces_nil in P|].
  inversion F as [|? ? Cp _]; subst. cbn [parseParams].
  unfold parseMediaRange. cbn [range set_range].
  rewrite <- ContainsFacts.contains_candidate in Cp. unfold contains in Cp.
  now destruct (Str.find "/" (Str.stringToLower (Str.trim p))).
Qed.

Lemma token_without_slash_discarded_witness :
  parseToken Stof.stof " html;q=1 " 3 = None.
Proof.
  apply (token_without_slash_discarded Stof.stof); [reflexivity | discriminate].
Defined.

(** ** The comparator and the sort *)

Module PlaceFacts.
Import F32.

Ltac by_place :=
  unfold before; cbn [place];
  repeat match goal with
         | |- context [Z.compare ?a ?b] => destruct (Z.compare_spec a b)
         | |- context [Pos.compare_cont Eq ?a ?b] =>
             change (Pos.compare_cont Eq a b) with (Pos.compare a b);
             destruct (Pos.compare_spec a b)
         end;
  cbn [CompOpp].

Lemma ltb_place (a b : float) :
  SFltb a b = true ->
  exists p q, place a = Some p /\ place b = Some q /\ before p q.
Proof.
  unfold SFltb.
  destruct a as [sa|sa| |sa ma ea], b as [sb|sb| |sb mb eb];
    cbn [SFcompare]; try discriminate;
    try destruct sa; try destruct sb; try discriminate;
    by_place; try discriminate; intros _;
    do 2 eexists; (split; [reflexivity|]); (split; [reflexivity|]); cbn; lia.
Qed.

Lemma eqb_place (a b : float) :
  SFeqb a b = true -> exists p, place a = Some p /\ place b = Some p.
Proof.
  unfold SFeqb.
  destruct a as [sa|sa| |sa ma ea], b as [sb|sb| |sb mb eb];
    cbn [SFcompare]; try discriminate;
    try destruct sa; try destruct sb; try discriminate;
    by_place; try discriminate; intros _; subst;
    eexists; split; reflexivity.
Qed.

Lemma place_ltb (a b : float) (p q : Z * Z * Z) :
  place a = Some p -> place b = Some q -> before p q -> SFltb a b = true.
Proof.
  unfold SFltb.
  destruct a as [sa|sa| |sa ma ea], b as [sb|sb| |sb mb eb];
    try discriminate;
    try destruct sa; try destruct sb;
    cbn [place SFcompare]; intros [= <-] [= <-]; unfold before;
    by_place; intros ?; first [reflexivity | exfalso; lia].
Qed.

Lemma before_trans (p q r : Z * Z * Z) : before p q -> before q r -> before p r.
Proof.
  destruct p as [[p1 p2] p3], q as [[q1 q2] q3], r as [[r1 r2] r3].
  unfold before. lia.
Qed.

(** Above a value that is not below a third one is above the third one. *)
Lemma gt_ge_trans (x v h : float) :
  gt x v = true -> gt v h = true \/ ne v h = false -> gt x h = true.
Proof.
  unfold gt, ne. intros X V.
  destruct (ltb_place _ _ X) as (pv & px & Pv & Px & B).
  destruct V as [V | V].
  - destruct (ltb_place _ _ V) as (ph & pv' & Ph & Pv' & B').
    rewrite Pv in Pv'. injection Pv' as <-.
    exact (place_ltb _ _ _ _ Ph Px (before_trans _ _ _ B' B)).
  - apply negb_false_iff in V.
    destruct (eqb_place _ _ V) as (p & Pv' & Ph).
    rewrite Pv in Pv'. injection Pv' as <-.
    exact (place_ltb _ _ _ _ Ph Px B).
Qed.

Lemma gt_irrefl (x : float) : gt x x = false.
Proof.
  destruct (gt x x) eqn:G; [|reflexivity].
  now rewrite (F32Facts.gt_asym _ _ G) in G.
Qed.

End PlaceFacts.




(** X9. A higher quality always comes first, whatever the types, subtypes
    and orders are. *)
Theorem higher_quality_precedes (a b : ParsedContentType) :
  F32.gt (qvalue a) (qvalue b) = true ->
  compareContentTypes a b = true /\ compareContentTypes b a = false.
Proof.
  intros G. unfold compareContentTypes.
  assert (N : F32.ne (qvalue a) (qvalue b) = true).
  { destruct (F32.ne (qvalue a) (qvalue b)) eqn:Q; [reflexivity|].
    now rewrite (F32Facts.ne_irrefl_gt _ _ Q) in G. }
  rewrite <- (F32Facts.ne_sym (qvalue a) (qvalue b)), N, G.
  split; [reflexivity | now apply F32Facts.gt_asym].
Qed.

Lemma higher_quality_precedes_witness :
  let a := mkParsedContentType "text/plain" "text" "plain" F32.one 7 in
  let b := mkParsedContentType "*/*" "*" "*" F32.milli 0 in
  compareContentTypes a b = true /\ compareContentTypes b a = false.
Proof. apply higher_quality_precedes. reflexivity. Defined.

(** X10. The comparator never ranks two entries both ways, nor an entry
    before itself. *)
Theorem comparator_one_way (a b : ParsedContentType) :
  compareContentTypes a b && compareContentTypes b a = false.
Proof.
  destruct (compareContentTypes a b) eqn:C; [|reflexivity].
  now rewrite (compareContentTypes_asym _ _ C).
Qed.

(** X11. Two entries with different orders whose qualities are not NaN are
    ranked exactly one way. *)
Theorem comparator_decides (a b : ParsedContentType) :
  F32.is_nan (qvalue a) = false -> F32.is_nan (qvalue b) = false ->
  order a <> order b ->
  xorb (compareContentTypes a b) (compareContentTypes b a) = true.
Proof.
  intros Na Nb O.
  destruct (compareContentTypes_total a b Na Nb O) as [C | C].
  - now rewrite C, (compareContentTypes_asym _ _ C).
  - now rewrite C, (compareContentTypes_asym _ _ C).
Qed.

Lemma comparator_decides_witness :
  let a := mkParsedContentType "text/plain" "text" "plain" F32.one 0 in
  let b := mkParsedContentType "text/*" "text" "*" F32.one 1 in
  xorb (compareContentTypes a b) (compareContentTypes b a) = true.
Proof.
  apply comparator_decides; [reflexivity | reflexivity | discriminate].
Defined.

(** ** The negotiator *)

(** X12. What [parse] returns comes from the available list: it is the
    first available content type as given (the empty string when there is
    none), or the trimmed, lower-cased text of an available entry that has
    a '/'. *)
Theorem parse_result_origin (stof : string -> option F32.float)
    (header : string) (available : list string) :
  parse stof header available = front available
  \/ exists entry,
       In entry available /\ contains "/" entry = true
       /\ parse stof header available = candidateText entry.
Proof.
  unfold parse. destruct (Str.empty header); [now left|].
  destruct (getPreferableContentType_cases
              (sort compareContentTypes (acceptedContentTypes stof header))
              available) as [[_ E] | H]; [now left | now right].
Qed.

Lemma matchAccepted_matched (st : ParsedContentType * bool)
    (a b : ParsedContentType) :
  matched a = matched b -> matchAccepted st a = matchAccepted st b.
Proof.
  unfold matched, matchAccepted. intros [= T S Q]. destruct st as [sel m].
  now rewrite T, S, Q.
Qed.

Lemma selectContentTypes_matched (l1 l2 : list ParsedContentType)
    (available : list string) (o : Z) :
  map matched l1 = map matched l2 ->
  selectContentTypes l1 available o = selectContentTypes l2 available o.
Proof.
  intros M.
  assert (F : forall st, fold_left matchAccepted l1 st = fold_left matchAccepted l2 st).
  { revert l2 M. induction l1 as [|a l1 IH]; intros [|b l2] M st;
      try discriminate; [reflexivity|].
    cbn [map] in M. cbn [fold_left].
    assert (Mab : matched a = matched b) by congruence.
    assert (M' : map matched l1 = map matched l2) by congruence.
    rewrite (matchAccepted_matched st a b Mab). now apply IH. }
  revert o. induction available as [|e rest IH]; intros o; [reflexivity|].
  cbn [selectContentTypes].
  destruct (Str.find "/" (Str.stringToLower (Str.trim e))); [|apply IH].
  now rewrite F, IH.
Qed.

(** X13. The negotiator reads the type, the subtype and the quality of
    the accepted ranges, in their order in the list, and nothing else: two
    lists that agree on these give the same result, whatever the [range] and
    [order] fields hold. *)
Theorem negotiation_reads_type_subtype_quality
    (l1 l2 : list ParsedContentType) (available : list string) :
  map matched l1 = map matched l2 ->
  getPreferableContentType l1 available = getPreferableContentType l2 available.
Proof.
  intros M. unfold getPreferableContentType.
  now rewrite (selectContentTypes_matched l1 l2 available 0 M).
Qed.

Lemma negotiation_reads_type_subtype_quality_witness :
  getPreferableContentType
    [mkParsedContentType "text/*" "text" "*" F32.milli 0]
    ["a/b"; "text/x"]
  = getPreferableContentType
      [mkParsedContentType "" "text" "*" F32.milli 41]
      ["a/b"; "text/x"].
Proof. apply negotiation_reads_type_subtype_quality. reflexivity. Defined.

(** X14. The candidates are made from the trimmed, lower-cased text of the
    available entries only: trimming and lower-casing the entries beforehand
    gives the same candidates. *)
Theorem candidates_of_normal_forms (accepted : list ParsedContentType)
    (available : list string) (o : Z) :
  selectContentTypes accepted (map candidateText available) o
  = selectContentTypes accepted available o.
Proof.
  revert o. induction available as [|e rest IH]; intros o; [reflexivity|].
  cbn [map selectContentTypes].
  fold (candidateText (candidateText e)). fold (candidateText e).
  rewrite candidateText_idempotent.
  destruct (Str.find "/" (candidateText e)); [now rewrite IH | apply IH].
Qed.

Lemma last_In {A : Type} (l : list A) (d : A) : l <> [] -> In (last l d) l.
Proof.
  destruct l as [|x l]; [congruence|]. intros _. rewrite last_cons.
  destruct (last_In_or l x) as [-> | H]; [now left | now right].
Qed.

(** X15. An exact accepted range decides: if some accepted range has the
    type and the subtype of a candidate, the candidate has the quality of
    such a range, whatever wildcard ranges the list holds and wherever they
    stand. *)
Theorem exact_range_decides (accepted : list ParsedContentType)
    (available : list string) (o : Z) (c : ParsedContentType) :
  In c (selectContentTypes accepted available o) ->
  existsb (isExact (type c) (subtype c)) accepted = true ->
  exists a,
    In a accepted /\ type a = type c /\ subtype a = subtype c
    /\ qvalue c = qvalue a.
Proof.
  intros H X.
  destruct (selectContentTypes_In _ _ _ _ H) as (_ & _ & _ & _ & _ & _ & _ & Q).
  unfold scannedQuality in Q. rewrite scan_closed_form in Q.
  apply existsb_exists in X. destruct X as (x & Hx & Ex).
  assert (N : map qvalue (filter (isExact (type c) (subtype c)) accepted) <> []).
  { intros E. apply map_eq_nil in E.
    assert (I : In x (filter (isExact (type c) (subtype c)) accepted))
      by (apply filter_In; now split).
    rewrite E in I. destruct I. }
  pose proof (last_In _
    (hd (last (map qvalue (filter isTypeWildcard accepted)) F32.zero)
       (map qvalue (filter (isSubtypeWildcard (type c)) accepted))) N) as L.
  rewrite <- Q in L. apply in_map_iff in L. destruct L as (a & Qa & Ia).
  apply filter_In in Ia. destruct Ia as [Ia Ea].
  unfold isExact in Ea. apply andb_true_iff in Ea. destruct Ea as [T S].
  apply String.eqb_eq in T. apply String.eqb_eq in S.
  exists a. repeat split; auto.
Qed.

Lemma exact_range_decides_witness :
  exists a,
    In a (acceptedContentTypes Stof.stof "*/*, text/*;q=0.9, text/html;q=0.5")
    /\ type a = "text" /\ subtype a = "html"
    /\ S754_finite false 8388608 (-24) = qvalue a.
Proof.
  apply (exact_range_decides
           (acceptedContentTypes Stof.stof "*/*, text/*;q=0.9, text/html;q=0.5")
           ["TEXT/html"] 0
           (mkParsedContentType "text/html" "text" "html"
              (S754_finite false 8388608 (-24)) 0)).
  - vm_compute. now left.
  - vm_compute. reflexivity.
Defined.

Lemma filter_none {A : Type} (f : A -> bool) (l : list A) :
  forallb (fun x => negb (f x)) l = true -> filter f l = [].
Proof.
  induction l as [|x l IH]; [reflexivity|]. cbn [forallb filter].
  intros H. apply andb_true_iff in H. destruct H as [N H].
  apply negb_true_iff in N. rewrite N. now apply IH.
Qed.

(** X16. A candidate keeps the quality 0 when no accepted range has its
    type or the type "*". *)
Theorem unmatched_type_scores_zero (accepted : list ParsedContentType)
    (available : list string) (o : Z) (c : ParsedContentType) :
  In c (selectContentTypes accepted available o) ->
  forallb (fun a => negb ((type a =? type c) || (type a =? "*"))) accepted = true ->
  qvalue c = F32.zero.
Proof.
  intros H U.
  destruct (selectContentTypes_In _ _ _ _ H) as (_ & _ & _ & _ & _ & _ & _ & Q).
  unfold scannedQuality in Q. rewrite scan_closed_form in Q.
  assert (W : forall f : ParsedContentType -> bool,
             (forall a, f a = true -> (type a =? type c) || (type a =? "*") = true) ->
             filter f accepted = []).
  { intros f Hf. apply filter_none. rewrite forallb_forall in *.
    intros a Ha. specialize (U a Ha). destruct (f a) eqn:Fa; [|reflexivity].
    now rewrite (Hf a Fa) in U. }
  rewrite (W (isExact (type c) (subtype c))),
          (W (isSubtypeWildcard (type c))), (W isTypeWildcard) in Q;
    [exact Q | | |].
  - intros a Fa. unfold isTypeWildcard in Fa. rewrite Fa. apply orb_true_r.
  - intros a Fa. unfold isSubtypeWildcard in Fa.
    apply andb_true_iff in Fa. destruct Fa as [-> _]. reflexivity.
  - intros a Fa. unfold isExact in Fa.
    apply andb_true_iff in Fa. destruct Fa as [-> _]. reflexivity.
Qed.

Lemma unmatched_type_scores_zero_witness :
  qvalue (mkParsedContentType "image/png" "image" "png" F32.zero 0) = F32.zero.
Proof.
  apply (unmatched_type_scores_zero
           (acceptedContentTypes Stof.stof "text/*, application/json;q=0")
           [" image/PNG"] 0).
  - vm_compute. now left.
  - vm_compute. reflexivity.
Defined.

(** X17. The order of a candidate is its position among the candidates,
    counted from 0: available entries without a '/' are not counted. *)
Theorem candidate_order_is_position (accepted : list ParsedContentType)
    (available : list string) :
  map order (selectContentTypes accepted available 0)
  = map Z.of_nat (seq 0 (List.length (filter (contains "/") available))).
Proof.
  assert (G : forall o,
             map order (selectContentTypes accepted available o)
             = map (fun k => (o + Z.of_nat k)%Z)
                 (seq 0 (List.length (filter (contains "/") available)))).
  { induction available as [|e rest IH]; intros o; [reflexivity|].
    cbn [selectContentTypes filter].
    rewrite <- (ContainsFacts.contains_candidate e). unfold contains at 1.
    destruct (Str.find "/" (Str.stringToLower (Str.trim e))) as [i|]; [|apply IH].
    cbn [map List.length seq]. rewrite fold_matchAccepted. cbn [fst order set_qvalue
      set_subtype set_type].
    rewrite IH, <- seq_shift, map_map. f_equal; [lia|].
    apply map_ext. intros k. lia. }
  rewrite G. apply map_ext. intros k. lia.
Qed.

Lemma parseToken_range (stof : string -> option F32.float) (token : string)
    (o : Z) (ct : ParsedContentType) :
  parseToken stof token o = Some ct -> exists text, range ct = candidateText text.
Proof.
  unfold parseToken. cbn [range]. intros H.
  destruct (Str.pieces ";" (Str.trim token)) as [|p rest] eqn:P.
  - injection H as <-. apply StrFacts.pieces_nil in P. cbn [range].
    exists "". now rewrite P.
  - cbn [parseParams] in H.
    destruct (parseMediaRange _ (Str.trim p)) as [c1|] eqn:M; [|discriminate].
    apply parseMediaRange_some in M. destruct M as (R & _).
    apply parseParams_some in H. destruct H as [_ ->].
    exists p. cbn [range set_qvalue]. exact R.
Qed.

(** X18. Every accepted range and every candidate carries its text in
    normal form: trimming and lower-casing it again changes nothing.  The
    text of a candidate is moreover its type, a '/', and its subtype, cut at
    the first '/'. *)
Theorem ranges_in_normal_form (stof : string -> option F32.float)
    (header : string) (accepted : list ParsedContentType)
    (available : list string) (o : Z) :
  Forall (fun ct => candidateText (range ct) = range ct)
    (acceptedContentTypes stof header)
  /\ Forall (fun c => candidateText (range c) = range c
                      /\ range c = type c ++ "/" ++ subtype c
                      /\ contains "/" (type c) = false)
       (selectContentTypes accepted available o).
Proof.
  split.
  - apply parseTokens_Forall. intros token o' ct _ P.
    destruct (parseToken_range _ _ _ _ P) as [text ->].
    apply candidateText_idempotent.
  - apply Forall_forall. intros c H.
    destruct (selectContentTypes_In _ _ _ _ H) as (e & i & _ & F & R & T & S & _).
    rewrite <- R in F. destruct (StrFacts.find_split _ _ _ F) as [Hs Hn].
    rewrite <- T, <- S in Hs. rewrite <- T in Hn.
    repeat split; [|exact Hs|unfold contains; now rewrite Hn].
    rewrite R. apply candidateText_idempotent.
Qed.

(** ** Letter case of the header *)

Lemma tolower_comma (c : ascii) :
  Ascii.eqb (Str.tolower c) "," = Ascii.eqb c ",".
Proof. destruct c as [[] [] [] [] [] [] [] []]; reflexivity. Qed.

Lemma tolower_semicolon (c : ascii) :
  Ascii.eqb (Str.tolower c) ";" = Ascii.eqb c ";".
Proof. destruct c as [[] [] [] [] [] [] [] []]; reflexivity. Qed.

Lemma pieces_stringToLower (s : string) :
  Str.pieces "," (Str.stringToLower s)
  = map Str.stringToLower (Str.pieces "," s).
Proof.
  induction s as [|c s IH]; [reflexivity|].
  cbn [Str.stringToLower Str.pieces]. rewrite tolower_comma, IH.
  destruct (Ascii.eqb c ","); [reflexivity|].
  now destruct (Str.pieces "," s).
Qed.

Lemma contains_stringToLower_semicolon (s : string) :
  contains ";" (Str.stringToLower s) = contains ";" s.
Proof.
  induction s as [|c s IH]; [reflexivity|].
  cbn [Str.stringToLower].
  now rewrite !ContainsFacts.contains_cons, tolower_semicolon, IH.
Qed.

Lemma contains_ltrim_false (c : ascii) (s : string) :
  contains c s = false -> contains c (Str.ltrim s) = false.
Proof.
  induction s as [|a s IH]; [reflexivity|].
  intros H. cbn [Str.ltrim]. destruct (Str.is_trim_char a); [|exact H].
  rewrite ContainsFacts.contains_cons in H.
  apply orb_false_iff in H. now apply IH.
Qed.

Lemma contains_rtrim_false (c : ascii) (s : string) :
  contains c s = false -> contains c (Str.rtrim s) = false.
Proof.
  induction s as [|a s IH]; [reflexivity|].
  rewrite ContainsFacts.contains_cons. intros H.
  apply orb_false_iff in H. destruct H as [A H]. specialize (IH H).
  cbn [Str.rtrim]. destruct (Str.rtrim s) as [|d r].
  - destruct (Str.is_trim_char a); [reflexivity|].
    now rewrite ContainsFacts.contains_cons, A.
  - now rewrite ContainsFacts.contains_cons, A.
Qed.

Lemma pieces_single (d : ascii) (s : string) :
  contains d s = false -> s <> "" -> Str.pieces d s = [s].
Proof.
  induction s as [|c s IH]; [congruence|].
  rewrite ContainsFacts.contains_cons. intros H _.
  apply orb_false_iff in H. destruct H as [C H].
  cbn [Str.pieces]. rewrite C.
  destruct s as [|b s]; [reflexivity|].
  now rewrite (IH H) by discriminate.
Qed.

Lemma parseMediaRange_ext (ct1 ct2 : ParsedContentType) (p1 p2 : string) :
  qvalue ct1 = qvalue ct2 -> order ct1 = order ct2 ->
  Str.stringToLower p1 = Str.stringToLower p2 ->
  parseMediaRange ct1 p1 = parseMediaRange ct2 p2.
Proof.
  destruct ct1 as [r1 t1 s1 q1 o1], ct2 as [r2 t2 s2 q2 o2].
  cbn [qvalue order]. intros -> -> E.
  unfold parseMediaRange, set_range, set_type, set_subtype.
  cbn [range type subtype qvalue order]. now rewrite E.
Qed.

Lemma stringToLower_empty (s : string) : Str.stringToLower s = "" -> s = "".
Proof. now destruct s. Qed.

Lemma parseToken_stringToLower (stof : string -> option F32.float)
    (token : string) (o : Z) :
  contains ";" token = false ->
  parseToken stof (Str.stringToLower token) o = parseToken stof token o.
Proof.
  intros C. unfold parseToken. cbn [range].
  rewrite <- stringToLower_trim.
  assert (Cu : contains ";" (Str.trim token) = false)
    by (unfold Str.trim; now apply contains_ltrim_false, contains_rtrim_false).
  destruct (Str.trim token) as [|a u] eqn:U; [reflexivity|].
  rewrite (pieces_single ";" (String a u) Cu) by discriminate.
  rewrite (pieces_single ";" (Str.stringToLower (String a u))).
  - cbn [parseParams].
    rewrite (parseMediaRange_ext
               (mkParsedContentType (Str.stringToLower (String a u)) "" "" F32.one o)
               (mkParsedContentType (String a u) "" "" F32.one o)
               (Str.trim (Str.stringToLower (String a u)))
               (Str.trim (String a u))); try reflexivity.
    rewrite <- stringToLower_trim. apply stringToLower_idempotent.
  - now rewrite contains_stringToLower_semicolon.
  - discriminate.
Qed.

(** X19. The media-ranges of the header are read without regard to letter
    case: on a header without parameters (no ';'), lower-casing the header
    does not change the result. *)
Theorem header_case_ignored (stof : string -> option F32.float)
    (header : string) (available : list string) :
  contains ";" header = false ->
  parse stof (Str.stringToLower header) available = parse stof header available.
Proof.
  intros C. unfold parse, acceptedContentTypes.
  rewrite pieces_stringToLower.
  assert (E : forall tokens o,
             Forall (fun t => contains ";" t = false) tokens ->
             parseTokens stof (map Str.stringToLower tokens) o
             = parseTokens stof tokens o).
  { induction tokens as [|t rest IH]; intros o F; [reflexivity|].
    inversion F as [|? ? Ct Fr]; subst. cbn [map parseTokens].
    now rewrite (parseToken_stringToLower stof t o Ct), (IH _ Fr). }
  rewrite (E _ 0%Z (pieces_without ";" "," header C)).
  now destruct header.
Qed.

Lemma header_case_ignored_witness :
  parse Stof.stof (Str.stringToLower "Text/HTML, APPLICATION/Json") ["application/json"]
  = parse Stof.stof "Text/HTML, APPLICATION/Json" ["application/json"].
Proof. apply header_case_ignored. reflexivity. Defined.

(** ** Sorting by quality *)

Lemma place_some (q : F32.float) :
  F32.is_nan q = false -> exists p, place q = Some p.
Proof.
  destruct q as [s|s| |s m e]; try discriminate; intros _;
    try destruct s; cbn [place]; eauto.
Qed.

(** On values that are not NaN, "not above" is transitive. *)
Lemma not_gt_trans (v y x : F32.float) :
  F32.is_nan v = false -> F32.is_nan y = false -> F32.is_nan x = false ->
  F32.gt v y = false -> F32.gt y x = false -> F32.gt v x = false.
Proof.
  intros Nv Ny Nx A B.
  destruct (F32.gt v x) eqn:G; [exfalso | reflexivity].
  destruct (place_some _ Ny) as [py Py].
  destruct (PlaceFacts.ltb_place _ _ G) as (px & pv & Px & Pv & L).
  assert (A' : ~ before py pv).
  { intros H. unfold F32.gt in A.
    now rewrite (PlaceFacts.place_ltb _ _ _ _ Py Pv H) in A. }
  assert (B' : ~ before px py).
  { intros H. unfold F32.gt in B.
    now rewrite (PlaceFacts.place_ltb _ _ _ _ Px Py H) in B. }
  destruct px as [[x1 x2] x3], py as [[y1 y2] y3], pv as [[v1 v2] v3].
  unfold before in *. lia.
Qed.

Lemma comp_true_notAbove (v e : ParsedContentType) :
  compareContentTypes v e = true -> notAbove v e.
Proof.
  intros C. unfold notAbove.
  destruct (RankFacts.comp_true_ge _ _ C) as [G | Q].
  - now apply F32Facts.gt_asym.
  - rewrite F32Facts.ne_sym in Q. now apply F32Facts.ne_irrefl_gt.
Qed.

Lemma comp_false_notAbove (v y : ParsedContentType) :
  compareContentTypes v y = false -> notAbove y v.
Proof.
  unfold notAbove, compareContentTypes. intros C.
  destruct (F32.ne (qvalue v) (qvalue y)) eqn:Q; [exact C|].
  now apply F32Facts.ne_irrefl_gt.
Qed.

Lemma linear_insert_sorted (v : ParsedContentType) (l : list ParsedContentType) :
  hasQuality v -> Forall hasQuality l -> StronglySorted notAbove l ->
  (snd (linear_insert compareContentTypes v l) = false
   /\ fst (linear_insert compareContentTypes v l) = l
   /\ Forall (fun e => compareContentTypes v e = true) l)
  \/ (snd (linear_insert compareContentTypes v l) = true
      /\ StronglySorted notAbove (fst (linear_insert compareContentTypes v l))
      /\ (forall x, In x (fst (linear_insert compareContentTypes v l))
                    <-> x = v \/ In x l)
      /\ exists y, In y l /\ notAbove y v).
Proof.
  intros Nv Nl S. induction l as [|x l IH]; [left; repeat split; constructor|].
  inversion Nl as [|? ? Nx Nl']; subst.
  apply StronglySorted_inv in S. destruct S as [S Fx].
  specialize (IH Nl' S). cbn [linear_insert].
  destruct (linear_insert compareContentTypes v l) as [r placed].
  cbn [fst snd] in IH.
  destruct IH as [(-> & -> & Fc) | (-> & Sr & Ir & (y & Hy & Ay))].
  - destruct (compareContentTypes v x) eqn:C; cbn [fst snd].
    + left. repeat split. now constructor.
    + right. split; [reflexivity|]. split; [|split].
      * constructor; [constructor; [exact S|]|].
        -- eapply Forall_impl; [|exact Fc]. intros e. apply comp_true_notAbove.
        -- constructor; [now apply comp_false_notAbove | exact Fx].
      * intros z. cbn [In]. split; intros [H | [H | H]]; auto.
      * exists x. split; [now left | now apply comp_false_notAbove].
  - cbn [fst snd]. right. split; [reflexivity|]. split; [|split].
    + constructor; [exact Sr|]. apply Forall_forall. intros z Hz.
      apply Ir in Hz. destruct Hz as [-> | Hz].
      * rewrite Forall_forall in Fx, Nl'. unfold notAbove in *.
        apply (not_gt_trans _ (qvalue y)); auto. now apply Nl'.
      * rewrite Forall_forall in Fx. now apply Fx.
    + intros z. cbn [In]. rewrite Ir. tauto.
    + exists y. split; [now right | exact Ay].
Qed.

Lemma insert_sorted (s : list ParsedContentType) (v : ParsedContentType) :
  hasQuality v -> Forall hasQuality s -> StronglySorted notAbove s ->
  StronglySorted notAbove (insert compareContentTypes s v).
Proof.
  intros Nv Ns S. destruct s as [|f s']; [repeat constructor|].
  unfold insert. destruct (compareContentTypes v f) eqn:C.
  - constructor; [exact S|].
    pose proof (StronglySorted_inv S) as [_ Ff].
    assert (Fa : Forall (notAbove f) (f :: s'))
      by (constructor; [apply PlaceFacts.gt_irrefl | exact Ff]).
    eapply Forall_impl; [|exact Fa]. cbn beta. unfold notAbove. intros e G.
    destruct (F32.gt (qvalue e) (qvalue v)) eqn:G'; [|reflexivity].
    now rewrite (PlaceFacts.gt_ge_trans _ _ _ G' (RankFacts.comp_true_ge _ _ C)) in G.
  - destruct (linear_insert_sorted v (f :: s') Nv Ns S)
      as [(P & _ & Fc) | (P & Sr & _)];
      destruct (linear_insert compareContentTypes v (f :: s')) as [r placed];
      cbn [fst snd] in *; subst placed.
    + inversion Fc; subst. congruence.
    + exact Sr.
Qed.

Lemma sort_sorted (l : list ParsedContentType) :
  Forall hasQuality l -> StronglySorted notAbove (sort compareContentTypes l).
Proof.
  unfold sort.
  assert (G : forall l s, Forall hasQuality l -> Forall hasQuality s ->
                          StronglySorted notAbove s ->
                          StronglySorted notAbove
                            (fold_left (insert compareContentTypes) l s)).
  { clear l. induction l as [|v l IH]; intros s Nl Ns S; [exact S|].
    inversion Nl; subst. cbn [fold_left]. apply IH; [assumption | |].
    - rewrite Forall_forall in *. intros x Hx.
      apply (Permutation_in x (insert_perm compareContentTypes s v)) in Hx.
      destruct Hx as [<- | Hx]; auto.
    - now apply insert_sorted. }
  intros N. apply G; [exact N | constructor | constructor].
Qed.

(** X20. When no accepted range has a NaN quality, sorting puts the
    accepted ranges in an order of non-increasing quality: no range has a
    higher quality than one that stands before it. *)
Theorem accepted_sorted_by_quality (stof : string -> option F32.float)
    (header : string) :
  Forall hasQuality (acceptedContentTypes stof header) ->
  StronglySorted notAbove
    (sort compareContentTypes (acceptedContentTypes stof header)).
Proof. apply sort_sorted. Qed.

Lemma hasQuality_forallb (l : list ParsedContentType) :
  forallb (fun a => negb (F32.is_nan (qvalue a))) l = true ->
  Forall hasQuality l.
Proof.
  intros H. apply Forall_forall. intros x Hx.
  rewrite forallb_forall in H. specialize (H x Hx).
  now apply negb_true_iff in H.
Qed.

Lemma accepted_sorted_by_quality_witness :
  StronglySorted notAbove
    (sort compareContentTypes
       (acceptedContentTypes Stof.stof "a/b;q=0.2, c/d, e/f;q=0, a/b;q=0.7")).
Proof.
  apply accepted_sorted_by_quality. apply hasQuality_forallb.
  vm_compute. reflexivity.
Defined.

Lemma sorted_filter (f : ParsedContentType -> bool) (l : list ParsedContentType) :
  StronglySorted notAbove l -> StronglySorted notAbove (filter f l).
Proof.
  induction 1 as [|a l S IH F]; [constructor|].
  cbn [filter]. destruct (f a); [|exact IH].
  constructor; [exact IH|].
  rewrite Forall_forall in *. intros x Hx. apply filter_In in Hx. now apply F.
Qed.

Lemma sorted_last (l : list ParsedContentType) (d : F32.float) :
  StronglySorted notAbove l ->
  Forall (fun a => F32.gt (last (map qvalue l) d) (qvalue a) = false) l.
Proof.
  induction 1 as [|a l S IH F]; [constructor|].
  cbn [map]. rewrite last_cons. constructor.
  - destruct l as [|b l']; [apply PlaceFacts.gt_irrefl|].
    destruct (last_In_or (map qvalue (b :: l')) (qvalue a)) as [-> | H];
      [apply PlaceFacts.gt_irrefl|].
    apply in_map_iff in H. destruct H as (x & <- & Hx).
    rewrite Forall_forall in F. exact (F x Hx).
  - destruct l as [|b l']; [constructor|].
    eapply Forall_impl; [|apply IH]. cbn beta. intros x Hx.
    cbn [map] in *. now rewrite last_cons in *.
Qed.

(** X21. Among accepted ranges that repeat the type and subtype of a
    candidate, the lowest quality wins: with the accepted ranges sorted as
    [parse] sorts them and free of NaN, the quality of a candidate is not
    above the quality of any exact range. *)
Theorem lowest_exact_quality_wins (stof : string -> option F32.float)
    (header : string) (available : list string) (c a : ParsedContentType) :
  Forall hasQuality (acceptedContentTypes stof header) ->
  In c (selectContentTypes
          (sort compareContentTypes (acceptedContentTypes stof header))
          available 0) ->
  In a (acceptedContentTypes stof header) ->
  isExact (type c) (subtype c) a = true ->
  F32.gt (qvalue c) (qvalue a) = false.
Proof.
  intros N Hc Ha Ea.
  destruct (selectContentTypes_In _ _ _ _ Hc) as (_ & _ & _ & _ & _ & _ & _ & Q).
  unfold scannedQuality in Q. rewrite scan_closed_form in Q. rewrite Q.
  pose proof (sorted_last _
    (hd (last (map qvalue (filter isTypeWildcard
          (sort compareContentTypes (acceptedContentTypes stof header)))) F32.zero)
       (map qvalue (filter (isSubtypeWildcard (type c))
          (sort compareContentTypes (acceptedContentTypes stof header)))))
    (sorted_filter (isExact (type c) (subtype c)) _ (sort_sorted _ N))) as L.
  rewrite Forall_forall in L. apply L. apply filter_In. split; [|exact Ea].
  now apply sort_in.
Qed.

Lemma lowest_exact_quality_wins_witness :
  F32.gt (S754_finite false 13421773 (-26))
         (qvalue (mkParsedContentType "a/b" "a" "b"
                    (S754_finite false 11744051 (-24)) 3)) = false.
Proof.
  apply (lowest_exact_quality_wins Stof.stof
           "a/b;q=0.2, c/d, e/f;q=0, a/b;q=0.7" ["a/b"]
           (mkParsedContentType "a/b" "a" "b" (S754_finite false 13421773 (-26)) 0)).
  - apply hasQuality_forallb. vm_compute. reflexivity.
  - vm_compute. now left.
  - vm_compute. do 3 right. now left.
  - reflexivity.
Defined.
